(** * dashboard_simple: the TCP video relay of [video_server.py]

    A shallow embedding of [VideoServer]: the length-prefixed ingest
    handler [handle_client], the MJPEG generator of [/video_feed], the
    [/status] route, and the producer's [send_frame] of [video_client.py].

    Sockets are modelled by the segments the peer delivers, the handler
    and the generator as step functions over the shared [VideoServer]
    object, and every access to [current_frame] and to [frame_lock] is
    recorded as an event. *)

From Stdlib Require Import String ZArith List Bool Lia.
From Stdlib.Strings Require Import Byte.
Import ListNotations.

Open Scope Z_scope.

(** ** Bytes and [struct] *)

Definition bytes := list byte.

Definition blen (b : bytes) : Z := Z.of_nat (length b).

Definition byte_val (b : byte) : Z := Z.of_N (Byte.to_N b).

Definition byte_of_Z (z : Z) : byte :=
  match Byte.of_N (Z.to_N (z mod 256)) with
  | Some b => b
  | None => x00
  end.

(** [struct.pack('!I', n)]: four bytes, most significant first;
    [struct.error] ([None]) outside the unsigned 32-bit range. *)
Definition struct_pack_I (n : Z) : option bytes :=
  if (0 <=? n) && (n <? 4294967296) then
    Some [byte_of_Z (n / 16777216); byte_of_Z (n / 65536);
          byte_of_Z (n / 256); byte_of_Z n]
  else None.

(** [struct.unpack('!I', data)[0]]: [struct.error] ([None]) unless the
    buffer holds exactly four bytes. *)
Definition struct_unpack_I (data : bytes) : option Z :=
  match data with
  | [b0; b1; b2; b3] =>
      Some (byte_val b0 * 16777216 + byte_val b1 * 65536
            + byte_val b2 * 256 + byte_val b3)
  | _ => None
  end.

(** ** Sockets

    What the peer will ever deliver on a connection: the segments in the
    order they arrive, and how the connection ends once they are read. *)

Inductive closing := PeerClosed | ConnReset.

Record socket := Socket {
  incoming : list bytes;
  ending : closing
}.

(** The bytes still to be read. *)
Definition pending (sock : socket) : bytes := concat (incoming sock).

(** The next non-empty segment, cut at [bufsize]. *)
Fixpoint take_segment (segs : list bytes) (bufsize : nat)
  : option (bytes * list bytes) :=
  match segs with
  | [] => None
  | [] :: rest => take_segment rest bufsize
  | seg :: rest =>
      Some (firstn bufsize seg,
            match skipn bufsize seg with
            | [] => rest
            | remaining => remaining :: rest
            end)
  end.

Inductive recv_result :=
| Received (chunk : bytes) (sock' : socket)
| RecvRaises (sock' : socket).

(** [sock.recv(bufsize)]: at most [bufsize] bytes of what has arrived,
    [b''] once the peer has closed, an exception on a reset. *)
Definition recv (sock : socket) (bufsize : Z) : recv_result :=
  match take_segment (incoming sock) (Z.to_nat bufsize) with
  | Some (chunk, rest) => Received chunk (Socket rest (ending sock))
  | None =>
      match ending sock with
      | PeerClosed => Received [] (Socket [] PeerClosed)
      | ConnReset => RecvRaises (Socket [] ConnReset)
      end
  end.

(** ** Images and OpenCV

    A decoded frame is a [numpy] array of [uint8]: its shape and its
    buffer.  OpenCV itself is outside the repository; the server is
    verified against its interface. *)

Record ndarray := NdArray {
  shape : list Z;
  buffer : bytes
}.

Definition np_zeros (dims : list Z) : ndarray :=
  NdArray dims (repeat x00 (Z.to_nat (fold_right Z.mul 1 dims))).

Inductive decode_result :=
| Decoded (frame : ndarray)
| NotAnImage          (* [cv2.imdecode] returns [None] *)
| DecodeRaises.       (* [cv2.error] *)

Definition FONT_HERSHEY_SIMPLEX : Z := 0.

Class Cv2 := {
  (** [cv2.imdecode(np.frombuffer(data, np.uint8), cv2.IMREAD_COLOR)] *)
  imdecode : bytes -> decode_result;
  (** [cv2.imencode('.jpg', img, [cv2.IMWRITE_JPEG_QUALITY, q])[1].tobytes()],
      [None] for the default parameters *)
  imencode_jpg : ndarray -> option Z -> bytes;
  (** [cv2.putText(img, text, org, fontFace, fontScale, color, thickness)] *)
  putText : ndarray -> string -> Z * Z -> Z -> Z -> Z * Z * Z -> Z -> ndarray;
  (** drawing keeps the array's shape *)
  putText_shape : forall img text org font scale color thick,
      shape (putText img text org font scale color thick) = shape img
}.

(** ** The server object *)

Record VideoServer := Server {
  host : string;
  port : Z;
  web_port : Z;
  current_frame : option ndarray;
  frame_lock : bool;              (* [true] while some thread holds it *)
  running : bool;
  server_socket : bool            (* [false] for [None] *)
}.

(** [VideoServer.__init__] *)
Definition init (host : string) (port web_port : Z) : VideoServer :=
  {| host := host; port := port; web_port := web_port;
     current_frame := None; frame_lock := false;
     running := false; server_socket := false |}.

Definition set_current_frame (v : option ndarray) (self : VideoServer)
  : VideoServer :=
  {| host := host self; port := port self; web_port := web_port self;
     current_frame := v; frame_lock := frame_lock self;
     running := running self; server_socket := server_socket self |}.

Definition set_frame_lock (b : bool) (self : VideoServer) : VideoServer :=
  {| host := host self; port := port self; web_port := web_port self;
     current_frame := current_frame self; frame_lock := b;
     running := running self; server_socket := server_socket self |}.

Definition set_running (b : bool) (self : VideoServer) : VideoServer :=
  {| host := host self; port := port self; web_port := web_port self;
     current_frame := current_frame self; frame_lock := frame_lock self;
     running := b; server_socket := server_socket self |}.

(** [start_tcp_server] up to its accept loop, and [stop]. *)
Definition start_tcp_server (self : VideoServer) : VideoServer :=
  {| host := host self; port := port self; web_port := web_port self;
     current_frame := current_frame self; frame_lock := frame_lock self;
     running := true; server_socket := true |}.

Definition stop (self : VideoServer) : VideoServer := set_running false self.

(** ** Events *)

Inductive message :=
| ReceivedFrame (width height : Z)   (* "Received frame: WxH from ..." *)
| FailedToDecode                     (* "Failed to decode frame from ..." *)
| FrameDecodingError                 (* "Frame decoding error: ..." *)
| IncompleteFrame                    (* "Incomplete frame received from ..." *)
| ClientHandlingError                (* "Client handling error: ..." *)
| ClientDisconnected.                (* "Client ... disconnected" *)

Inductive event :=
| Acquire                            (* [frame_lock.__enter__] *)
| Release                            (* [frame_lock.__exit__] *)
| ReadFrame                          (* a read of [self.current_frame] *)
| WriteFrame (v : option ndarray)    (* [self.current_frame = v] *)
| Print (msg : message)
| SockClose                          (* [client_socket.close()] *)
| Yield (chunk : bytes)
| Sleep.

(** Accesses to [current_frame] happen only between an [Acquire] and the
    next [Release]. *)
Fixpoint guarded_from (held : bool) (tr : list event) : bool :=
  match tr with
  | [] => true
  | Acquire :: tr' => guarded_from true tr'
  | Release :: tr' => guarded_from false tr'
  | ReadFrame :: tr' => held && guarded_from held tr'
  | WriteFrame _ :: tr' => held && guarded_from held tr'
  | _ :: tr' => guarded_from held tr'
  end.

Definition guarded (tr : list event) : bool := guarded_from false tr.

Definition is_frame_write (e : event) : bool :=
  match e with
  | WriteFrame (Some _) => true
  | _ => false
  end.

Definition no_frame_written (tr : list event) : bool :=
  forallb (fun e => negb (is_frame_write e)) tr.

(** ** [handle_client] *)

Inductive pc :=
| LoopHead                                      (* [while self.running:] *)
| RecvSize                                      (* [size_data = recv(4)] *)
| RecvData (frame_size : Z) (frame_data : bytes)  (* the inner [while] test *)
| Decode (frame_size : Z) (frame_data : bytes)  (* [if len(frame_data) == frame_size:] *)
| Update (frame : ndarray)                      (* [with self.frame_lock:] of the loop *)
| Finally                                       (* the [finally:] block *)
| Clear                                         (* [with self.frame_lock:] of [finally] *)
| Done.

Record handler := Handler {
  client_socket : socket;
  at_pc : pc
}.

Section Server.

Context {cv : Cv2}.

(** One step of the handler thread on the shared server object.  A step
    that needs [frame_lock] while it is held does nothing: the thread
    stays blocked in [__enter__]. *)
Definition handle_client_step (self : VideoServer) (h : handler)
  : VideoServer * handler * list event :=
  let sock := client_socket h in
  match at_pc h with
  | LoopHead =>
      if running self then (self, Handler sock RecvSize, [])
      else (self, Handler sock Finally, [])
  | RecvSize =>
      match recv sock 4 with
      | RecvRaises sock' =>
          (self, Handler sock' Finally, [Print ClientHandlingError])
      | Received [] sock' => (self, Handler sock' Finally, [])
      | Received size_data sock' =>
          match struct_unpack_I size_data with
          | Some frame_size => (self, Handler sock' (RecvData frame_size []), [])
          | None => (self, Handler sock' Finally, [Print ClientHandlingError])
          end
      end
  | RecvData frame_size frame_data =>
      if blen frame_data <? frame_size then
        match recv sock (Z.min (frame_size - blen frame_data) 4096) with
        | RecvRaises sock' =>
            (self, Handler sock' Finally, [Print ClientHandlingError])
        | Received [] sock' =>
            (self, Handler sock' (Decode frame_size frame_data), [])
        | Received chunk sock' =>
            (self, Handler sock' (RecvData frame_size (frame_data ++ chunk)), [])
        end
      else (self, Handler sock (Decode frame_size frame_data), [])
  | Decode frame_size frame_data =>
      if blen frame_data =? frame_size then
        match imdecode frame_data with
        | Decoded frame => (self, Handler sock (Update frame), [])
        | NotAnImage =>
            (self, Handler sock LoopHead, [Print FailedToDecode])
        | DecodeRaises =>
            (self, Handler sock LoopHead, [Print FrameDecodingError])
        end
      else (self, Handler sock LoopHead, [Print IncompleteFrame])
  | Update frame =>
      if frame_lock self then (self, h, [])
      else (set_current_frame (Some frame) self,
            Handler sock LoopHead,
            [Acquire; WriteFrame (Some frame); Release;
             Print (ReceivedFrame (nth 1 (shape frame) 0)
                                  (nth 0 (shape frame) 0))])
  | Finally =>
      (self, Handler sock Clear, [Print ClientDisconnected; SockClose])
  | Clear =>
      if frame_lock self then (self, h, [])
      else (set_current_frame None self,
            Handler sock Done,
            [Acquire; WriteFrame None; Release])
  | Done => (self, h, [])
  end.

(** [n] steps of one handler with no other thread running. *)
Fixpoint run (n : nat) (self : VideoServer) (h : handler)
  : VideoServer * handler * list event :=
  match n with
  | O => (self, h, [])
  | S n' =>
      let '(self1, h1, ev1) := handle_client_step self h in
      let '(self2, h2, ev2) := run n' self1 h1 in
      (self2, h2, ev1 ++ ev2)
  end.

(** Steps that always suffice: every pass of either loop takes at least
    one byte off the socket. *)
Definition rank (p : pc) : nat :=
  match p with
  | Done => 0
  | Clear => 1
  | Finally => 2
  | RecvSize => 3
  | LoopHead => 4
  | Update _ => 5
  | Decode _ _ => 6
  | RecvData _ _ => 7
  end.

Definition fuel (h : handler) : nat :=
  8 * length (pending (client_socket h)) + rank (at_pc h).

(** [handle_client(client_socket, client_address)], run to its end. *)
Definition handle_client (self : VideoServer) (client_socket : socket)
  : VideoServer * handler * list event :=
  let h := Handler client_socket LoopHead in
  run (fuel h) self h.

(** The bytes a handler holds in [frame_data]. *)
Definition buffered (h : handler) : Z :=
  match at_pc h with
  | RecvData _ frame_data => blen frame_data
  | Decode _ frame_data => blen frame_data
  | _ => 0
  end.

(** What the [finally:] block prints and does. *)
Definition finally_events : list event :=
  [Print ClientDisconnected; SockClose; Acquire; WriteFrame None; Release].

(** ** [/video_feed] and [/status] *)

Definition CRLF : bytes := [x0d; x0a].

(** [b'--frame\r\n' b'Content-Type: image/jpeg\r\n\r\n'] *)
Definition part_header : bytes :=
  list_byte_of_string "--frame" ++ CRLF ++
  list_byte_of_string "Content-Type: image/jpeg" ++ CRLF ++ CRLF.

Definition multipart_chunk (frame_bytes : bytes) : bytes :=
  part_header ++ frame_bytes ++ CRLF.

Definition placeholder : ndarray :=
  putText (np_zeros [480; 640; 3]) "No Video Stream" (150, 240)
          FONT_HERSHEY_SIMPLEX 1 (255, 255, 255) 2.

(** The body of the [with self.frame_lock:] block of [generate]. *)
Definition frame_bytes_of (self : VideoServer) : bytes :=
  match current_frame self with
  | Some frame => imencode_jpg frame (Some 85)
  | None => imencode_jpg placeholder None
  end.

Inductive gen_pc :=
| Poll          (* about to enter [with self.frame_lock:] *)
| AtYield.      (* suspended at [yield], inside the [with] block *)

(** One step of the generator returned by [generate()]: up to the
    [yield], and from the [yield] through [time.sleep(0.033)]. *)
Definition generate_step (self : VideoServer) (g : gen_pc)
  : VideoServer * gen_pc * list event :=
  match g with
  | Poll =>
      if frame_lock self then (self, Poll, [])
      else (set_frame_lock true self, AtYield,
            [Acquire; ReadFrame; Yield (multipart_chunk (frame_bytes_of self))])
  | AtYield => (set_frame_lock false self, Poll, [Release; Sleep])
  end.

Record status_json := StatusJson {
  connected : bool;
  tcp_port : Z;
  status_web_port : Z
}.

(** [status()] *)
Definition status (self : VideoServer) : status_json * list event :=
  ({| connected := match current_frame self with
                   | Some _ => true
                   | None => false
                   end;
      tcp_port := port self;
      status_web_port := web_port self |},
   [ReadFrame]).

(** ** The producer: [VideoClient.send_frame]

    The producer's [self.socket]: [None] before [connect], otherwise a
    connection that carries [room] more bytes before [sendall] raises,
    or any number when [room] is [None]. *)
Inductive out_socket :=
| NoSocket
| Link (room : option nat).

Inductive sendall_result :=
| SentAll (sock' : out_socket)
| SendRaises (sent : bytes) (sock' : out_socket).  (* what left before the error *)

(** [self.socket.sendall(data)] *)
Definition sendall (sock : out_socket) (data : bytes) : sendall_result :=
  match sock with
  | NoSocket => SendRaises [] NoSocket
  | Link None => SentAll (Link None)
  | Link (Some room) =>
      if (length data <=? room)%nat
      then SentAll (Link (Some (room - length data)%nat))
      else SendRaises (firstn room data) (Link (Some 0%nat))
  end.

(** Whether the socket carries [n] more bytes. *)
Definition carries (sock : out_socket) (n : nat) : bool :=
  match sock with
  | NoSocket => false
  | Link None => true
  | Link (Some room) => (n <=? room)%nat
  end.

(** [send_frame(frame)]: the value returned, what went on the wire, one
    segment per [sendall], and the socket afterwards.  [encodes] says
    whether [cv2.imencode] returns for this frame rather than raising;
    any exception is caught and makes the result [False]. *)
Definition send_frame (frame : ndarray) (encodes : bool) (sock : out_socket)
  : bool * list bytes * out_socket :=
  if encodes then
    let frame_data := imencode_jpg frame (Some 85) in
    let frame_size := blen frame_data in
    match struct_pack_I frame_size with
    | Some size_data =>
        match sendall sock size_data with
        | SentAll sock1 =>
            match sendall sock1 frame_data with
            | SentAll sock2 => (true, [size_data; frame_data], sock2)
            | SendRaises sent sock2 => (false, [size_data; sent], sock2)
            end
        | SendRaises sent sock1 => (false, [sent], sock1)
        end
    | None => (false, [], sock)
    end
  else (false, [], sock).

(** ** Threads sharing the server object *)

Inductive thread :=
| Ingest (h : handler)
| Viewer (g : gen_pc).

Record system := System {
  server : VideoServer;
  threads : list thread
}.

Fixpoint set_thread (i : nat) (t : thread) (ts : list thread) : list thread :=
  match ts, i with
  | [], _ => []
  | _ :: ts', O => t :: ts'
  | t0 :: ts', S i' => t0 :: set_thread i' t ts'
  end.

(** Thread [i] takes its next step. *)
Definition sys_step (i : nat) (sys : system) : system * list event :=
  match nth_error (threads sys) i with
  | Some (Ingest h) =>
      let '(self', h', ev) := handle_client_step (server sys) h in
      (System self' (set_thread i (Ingest h') (threads sys)), ev)
  | Some (Viewer g) =>
      let '(self', g', ev) := generate_step (server sys) g in
      (System self' (set_thread i (Viewer g') (threads sys)), ev)
  | None => (sys, [])
  end.

(** The threads step in the order the schedule gives. *)
Fixpoint sys_run (sched : list nat) (sys : system) : system * list event :=
  match sched with
  | [] => (sys, [])
  | i :: sched' =>
      let '(sys1, ev1) := sys_step i sys in
      let '(sys2, ev2) := sys_run sched' sys1 in
      (sys2, ev1 ++ ev2)
  end.

End Server.

(** ** Traces, schedules and wires *)

(** What the assignments of a trace leave in [current_frame]. *)
Definition last_write (v0 : option ndarray) (tr : list event)
  : option ndarray :=
  fold_left (fun v e => match e with WriteFrame v' => v' | _ => v end) tr v0.

(** Whether the lock is held after a trace. *)
Definition held_after (held : bool) (tr : list event) : bool :=
  fold_left (fun b e => match e with
                        | Acquire => true
                        | Release => false
                        | _ => b
                        end) tr held.

(** The lock is taken only when free, released only when held, and
    [current_frame] is touched only while it is held. *)
Fixpoint lock_ok (held : bool) (tr : list event) : bool :=
  match tr with
  | [] => true
  | Acquire :: tr' => negb held && lock_ok true tr'
  | Release :: tr' => held && lock_ok false tr'
  | ReadFrame :: tr' => held && lock_ok held tr'
  | WriteFrame _ :: tr' => held && lock_ok held tr'
  | _ :: tr' => lock_ok held tr'
  end.

Definition is_assignment (e : event) : bool :=
  match e with
  | WriteFrame _ => true
  | _ => false
  end.

(** A generator suspended at its [yield] is inside [with self.frame_lock:]. *)
Definition holds_lock (t : thread) : bool :=
  match t with
  | Viewer AtYield => true
  | _ => false
  end.

Definition holders (ts : list thread) : nat := length (filter holds_lock ts).

(** The lock is held exactly when one generator is inside its [with]
    block. *)
Definition lock_consistent (sys : system) : Prop :=
  holders (threads sys) = if frame_lock (server sys) then 1%nat else 0%nat.

Definition thread_done (t : thread) : bool :=
  match t with
  | Ingest h => match at_pc h with Done => true | _ => false end
  | Viewer _ => true
  end.

(** Every ingest handler has returned. *)
Definition all_ingest_done (ts : list thread) : bool := forallb thread_done ts.

Definition is_viewer_at (ts : list thread) (i : nat) : bool :=
  match nth_error ts i with
  | Some (Viewer _) => true
  | _ => false
  end.

(** The segments of messages sent one after the other, each as
    [send_frame] sends it: the length field, then the payload. *)
Definition framed (msgs : list (bytes * bytes)) : list bytes :=
  flat_map (fun m => [fst m; snd m]) msgs.

(** [frame_data] holds no more than the length field announced, and the
    announced length is an unsigned 32-bit number. *)
Definition buffer_bounded (h : handler) : Prop :=
  match at_pc h with
  | RecvData frame_size frame_data =>
      0 <= frame_size < 4294967296 /\ blen frame_data <= frame_size
  | Decode frame_size frame_data =>
      0 <= frame_size < 4294967296 /\ blen frame_data <= frame_size
  | _ => True
  end.

Section Messages.

Context {cv : Cv2}.

(** What the handler prints and does for one payload received whole, and
    the server object after it. *)
Definition message_events (payload : bytes) : list event :=
  match imdecode payload with
  | Decoded frame =>
      [Acquire; WriteFrame (Some frame); Release;
       Print (ReceivedFrame (nth 1 (shape frame) 0) (nth 0 (shape frame) 0))]
  | NotAnImage => [Print FailedToDecode]
  | DecodeRaises => [Print FrameDecodingError]
  end.

Definition store_after (self : VideoServer) (payload : bytes) : VideoServer :=
  match imdecode payload with
  | Decoded frame => set_current_frame (Some frame) self
  | _ => self
  end.

(** What a handler has taken off a connection that delivers [stream]:
    the bytes already read, and in them the length field and the payload
    bytes of the message it is working on. *)
Definition reads_from (stream : bytes) (h : handler) : Prop :=
  exists consumed,
    stream = consumed ++ pending (client_socket h) /\
    match at_pc h with
    | RecvData frame_size frame_data =>
        exists pre size_data,
          consumed = pre ++ size_data ++ frame_data /\
          struct_unpack_I size_data = Some frame_size
    | Decode frame_size frame_data =>
        exists pre size_data,
          consumed = pre ++ size_data ++ frame_data /\
          struct_unpack_I size_data = Some frame_size
    | Update frame =>
        exists pre size_data frame_data,
          consumed = pre ++ size_data ++ frame_data /\
          struct_unpack_I size_data = Some (blen frame_data) /\
          imdecode frame_data = Decoded frame
    | _ => True
    end.

End Messages.

(** ** A stand-in for OpenCV

    Used only where a statement is evaluated on concrete input.  An image
    of [r] rows and [c] columns is encoded as the JPEG start marker
    [FF D8], the bytes [r] and [c], and its [3*r*c] samples; anything else
    is not an image, and an empty buffer raises as OpenCV does. *)
Module Stub.

Definition stub_imdecode (data : bytes) : decode_result :=
  match data with
  | [] => DecodeRaises
  | xff :: xd8 :: r :: c :: px =>
      if blen px =? 3 * byte_val r * byte_val c
      then Decoded (NdArray [byte_val r; byte_val c; 3] px)
      else NotAnImage
  | _ => NotAnImage
  end.

Definition stub_imencode (img : ndarray) (quality : option Z) : bytes :=
  xff :: xd8 :: byte_of_Z (nth 0 (shape img) 0)
      :: byte_of_Z (nth 1 (shape img) 0) :: buffer img.

Definition stub_putText (img : ndarray) (text : string) (org : Z * Z)
  (font scale : Z) (color : Z * Z * Z) (thick : Z) : ndarray :=
  NdArray (shape img) (buffer img).

#[export] Instance stub_cv2 : Cv2 := {|
  imdecode := stub_imdecode;
  imencode_jpg := stub_imencode;
  putText := stub_putText;
  putText_shape := fun _ _ _ _ _ _ _ => eq_refl
|}.

(** A 1x1 image and its encoding. *)
Definition pixel : ndarray := NdArray [1; 1; 3] [x10; x20; x30].
Definition pixel_jpg : bytes := [xff; xd8; x01; x01; x10; x20; x30].

(** The server after [__init__] and [start_tcp_server]. *)
Definition server0 : VideoServer := start_tcp_server (init "0.0.0.0" 8080 5000).

(** Two producers: the first has written its frame and is still
    connected; the second, which never wrote, has reached the clear. *)
Definition two_producers : system :=
  System (set_current_frame (Some pixel) server0)
         [Ingest (Handler (Socket [[x00; x00; x00; x07]; pixel_jpg] PeerClosed)
                          LoopHead);
          Ingest (Handler (Socket [] PeerClosed) Clear)].

(** Two messages as sent: an image, then two bytes that are none. *)
Definition two_messages : list (bytes * bytes) :=
  [([x00; x00; x00; x07], pixel_jpg); ([x00; x00; x00; x02], [x41; x42])].

(** A generator suspended at its [yield], a handler about to clear and
    a handler about to store a frame. *)
Definition viewer_suspended : system :=
  System (set_frame_lock true (set_current_frame (Some pixel) server0))
         [Viewer AtYield;
          Ingest (Handler (Socket [] PeerClosed) Clear);
          Ingest (Handler (Socket [] PeerClosed) (Update pixel))].

(** Two viewers and a producer that sends one frame and closes. *)
Definition one_producer : system :=
  System server0
         [Ingest (Handler (Socket [[x00; x00; x00; x07]; pixel_jpg] PeerClosed)
                          LoopHead);
          Viewer Poll; Viewer Poll].

End Stub.

(** * Properties *)

(** ** [struct] *)

Lemma byte_val_range (b : byte) : 0 <= byte_val b < 256.
Proof.
  unfold byte_val. pose proof (Byte.to_N_bounded b). lia.
Qed.

Lemma byte_val_of_Z (z : Z) : byte_val (byte_of_Z z) = z mod 256.
Proof.
  unfold byte_val, byte_of_Z.
  pose proof (Z.mod_pos_bound z 256 ltac:(lia)) as Hm.
  destruct (Byte.of_N (Z.to_N (z mod 256))) as [b|] eqn:E.
  - apply Byte.to_of_N in E. rewrite E. lia.
  - apply Byte.of_N_None_iff in E. lia.
Qed.

Lemma struct_unpack_pack (n : Z) (data : bytes) :
  struct_pack_I n = Some data -> struct_unpack_I data = Some n.
Proof.
  unfold struct_pack_I.
  destruct ((0 <=? n) && (n <? 4294967296)) eqn:E; [|discriminate].
  apply andb_true_iff in E. destruct E as [H0 H1].
  apply Z.leb_le in H0. apply Z.ltb_lt in H1.
  intros H. injection H as <-. unfold struct_unpack_I.
  rewrite !byte_val_of_Z. f_equal.
  Z.div_mod_to_equations. lia.
Qed.

Lemma struct_unpack_short (data : bytes) :
  length data <> 4%nat -> struct_unpack_I data = None.
Proof.
  destruct data as [|b0 [|b1 [|b2 [|b3 [|b4 tl]]]]]; simpl; intros H;
    try reflexivity.
  contradiction.
Qed.

Lemma app_eq_length {A} (a b c d : list A) :
  a ++ b = c ++ d -> length a = length c -> a = c /\ b = d.
Proof.
  revert c. induction a as [|x a IH]; intros [|y c] H Hl; simpl in *;
    try discriminate.
  - auto.
  - injection H as -> H. destruct (IH c H ltac:(lia)) as [-> ->]. auto.
Qed.

Lemma struct_pack_length (n : Z) (data : bytes) :
  struct_pack_I n = Some data -> length data = 4%nat.
Proof.
  unfold struct_pack_I.
  destruct ((0 <=? n) && (n <? 4294967296)); [|discriminate].
  intros H. injection H as <-. reflexivity.
Qed.

Lemma struct_pack_total (n : Z) :
  0 <= n < 4294967296 -> exists data, struct_pack_I n = Some data.
Proof.
  intros [H0 H1]. unfold struct_pack_I.
  apply Z.leb_le in H0. apply Z.ltb_lt in H1. rewrite H0, H1.
  simpl. eauto.
Qed.

(** ** [recv] *)

Lemma take_segment_some segs bufsize chunk rest :
  take_segment segs bufsize = Some (chunk, rest) ->
  concat segs = chunk ++ concat rest /\
  (length chunk <= bufsize)%nat /\
  ((0 < bufsize)%nat -> chunk <> []).
Proof.
  induction segs as [|seg segs IH]; simpl; [discriminate|].
  destruct seg as [|b seg]; [exact IH|].
  intros H. injection H as <- <-.
  split; [|split].
  - rewrite <- (firstn_skipn bufsize (b :: seg)) at 1.
    rewrite <- app_assoc. f_equal.
    destruct (skipn bufsize (b :: seg)); reflexivity.
  - rewrite length_firstn. lia.
  - intros Hpos. destruct bufsize; [lia|]. simpl. discriminate.
Qed.

Lemma take_segment_none segs bufsize :
  take_segment segs bufsize = None -> concat segs = [].
Proof.
  induction segs as [|seg segs IH]; simpl; [reflexivity|].
  destruct seg; [exact IH|discriminate].
Qed.

Lemma take_segment_nil segs bufsize :
  concat segs = [] -> take_segment segs bufsize = None.
Proof.
  induction segs as [|seg segs IH]; intros H; [reflexivity|].
  simpl in H. apply app_eq_nil in H. destruct H as [-> H].
  simpl. apply IH. exact H.
Qed.

Lemma recv_received sock bufsize chunk sock' :
  recv sock bufsize = Received chunk sock' ->
  pending sock = chunk ++ pending sock' /\
  ending sock' = ending sock /\
  blen chunk <= Z.max 0 bufsize.
Proof.
  unfold recv, pending, blen.
  destruct (take_segment (incoming sock) (Z.to_nat bufsize))
    as [[c rest]|] eqn:E.
  - intros H. injection H as <- <-.
    apply take_segment_some in E. destruct E as (Hc & Hl & _).
    simpl. repeat split; [exact Hc|lia].
  - apply take_segment_none in E.
    destruct (ending sock) eqn:Ee; [|discriminate].
    intros H. injection H as <- <-. simpl. repeat split; [exact E|lia].
Qed.

Lemma recv_empty sock bufsize sock' :
  0 < bufsize ->
  recv sock bufsize = Received [] sock' ->
  pending sock = [] /\ sock' = Socket [] PeerClosed /\ ending sock = PeerClosed.
Proof.
  unfold recv, pending. intros Hpos.
  destruct (take_segment (incoming sock) (Z.to_nat bufsize))
    as [[c rest]|] eqn:E.
  - intros H. injection H as -> <-.
    apply take_segment_some in E. destruct E as (_ & _ & Hne).
    exfalso. apply Hne; [lia|reflexivity].
  - apply take_segment_none in E.
    destruct (ending sock); [|discriminate].
    intros H. injection H as <-. auto.
Qed.

Lemma recv_raises sock bufsize sock' :
  recv sock bufsize = RecvRaises sock' ->
  pending sock = [] /\ sock' = Socket [] ConnReset /\ ending sock = ConnReset.
Proof.
  unfold recv, pending.
  destruct (take_segment (incoming sock) (Z.to_nat bufsize))
    as [[c rest]|] eqn:E; [discriminate|].
  apply take_segment_none in E.
  destruct (ending sock); [discriminate|].
  intros H. injection H as <-. auto.
Qed.

Lemma recv_data sock bufsize :
  0 < bufsize -> pending sock <> [] ->
  exists chunk sock', recv sock bufsize = Received chunk sock' /\ chunk <> [].
Proof.
  unfold recv, pending. intros Hpos Hne.
  destruct (take_segment (incoming sock) (Z.to_nat bufsize))
    as [[c rest]|] eqn:E.
  - apply take_segment_some in E. destruct E as (_ & _ & Hc).
    exists c, (Socket rest (ending sock)). split; [reflexivity|].
    apply Hc. lia.
  - apply take_segment_none in E. contradiction.
Qed.

(** ** Runs of one handler *)

Lemma pc_done_dec (h : handler) : {at_pc h = Done} + {at_pc h <> Done}.
Proof.
  destruct (at_pc h); (left; reflexivity) || (right; discriminate).
Defined.

Ltac break_step H :=
  unfold handle_client_step in H; simpl in H;
  repeat match type of H with
         | context [match ?x with _ => _ end] => destruct x eqn:?
         end;
  inversion H; subst; clear H.

Section Runs.

Context {cv : Cv2}.

Lemma run_add n m self h :
  run (n + m) self h =
  let '(self1, h1, ev1) := run n self h in
  let '(self2, h2, ev2) := run m self1 h1 in
  (self2, h2, ev1 ++ ev2).
Proof.
  revert self h. induction n as [|n IH]; intros self h; simpl.
  - destruct (run m self h) as [[s2 h2] e2]. reflexivity.
  - destruct (handle_client_step self h) as [[s1 h1] e1].
    rewrite IH.
    destruct (run n s1 h1) as [[s2 h2] e2].
    destruct (run m s2 h2) as [[s3 h3] e3].
    rewrite app_assoc. reflexivity.
Qed.

Lemma run_done n self h :
  at_pc h = Done -> run n self h = (self, h, []).
Proof.
  intros Hd. induction n as [|n IH]; simpl; [reflexivity|].
  unfold handle_client_step. rewrite Hd. rewrite IH. reflexivity.
Qed.

(** Once the handler has returned, further steps change nothing. *)
Lemma run_stable n m self h self' h' tr :
  run n self h = (self', h', tr) -> at_pc h' = Done -> (n <= m)%nat ->
  run m self h = (self', h', tr).
Proof.
  intros Hr Hd Hle.
  replace m with (n + (m - n))%nat by lia.
  rewrite run_add, Hr, (run_done _ _ _ Hd), app_nil_r. reflexivity.
Qed.

Lemma step_decreases self h self' h' ev :
  frame_lock self = false -> at_pc h <> Done ->
  handle_client_step self h = (self', h', ev) ->
  (fuel h' < fuel h)%nat /\ frame_lock self' = false.
Proof.
  intros Hl Hnd Hs. destruct h as [sock p]. unfold fuel. simpl in *.
  break_step Hs; simpl; try congruence; try (split; [lia|assumption]);
    repeat match goal with
      | H : recv _ _ = Received _ _ |- _ =>
          apply recv_received in H; destruct H as (H & _ & _); rewrite H
      | H : recv _ _ = RecvRaises _ |- _ =>
          apply recv_raises in H; destruct H as (H & -> & _); rewrite H
      end;
    rewrite ?length_app; simpl; split; try assumption; lia.
Qed.

(** [handle_client] returns: with the lock free, [fuel] steps reach the
    end of the [finally] block. *)
Lemma run_terminates n self h :
  frame_lock self = false -> (fuel h <= n)%nat ->
  at_pc (snd (fst (run n self h))) = Done.
Proof.
  revert self h. induction n as [|n IH]; intros self h Hl Hf.
  - simpl. destruct h as [sock p]. unfold fuel in Hf. simpl in *.
    destruct p; simpl in Hf; try lia. reflexivity.
  - destruct (pc_done_dec h) as [Hd|Hnd].
    + rewrite (run_done _ _ _ Hd). exact Hd.
    + simpl.
      destruct (handle_client_step self h) as [[s1 h1] e1] eqn:Hs.
      destruct (step_decreases _ _ _ _ _ Hl Hnd Hs) as [Hlt Hl1].
      specialize (IH s1 h1 Hl1 ltac:(lia)).
      destruct (run n s1 h1) as [[s2 h2] e2]. exact IH.
Qed.

Lemma run_step n self h s1 h1 e1 s2 h2 e2 :
  handle_client_step self h = (s1, h1, e1) ->
  run n s1 h1 = (s2, h2, e2) ->
  run (S n) self h = (s2, h2, e1 ++ e2).
Proof.
  intros Hs Hr. simpl. rewrite Hs, Hr. reflexivity.
Qed.

(** [recv(4)] when the first segment holds the whole length field. *)
Lemma recv_header size_data more segs e :
  length size_data = 4%nat ->
  exists sock',
    recv (Socket ((size_data ++ more) :: segs) e) 4 = Received size_data sock' /\
    pending sock' = more ++ concat segs /\ ending sock' = e.
Proof.
  intros Hlen.
  destruct size_data as [|b0 [|b1 [|b2 [|b3 [|b4 tl]]]]]; try discriminate.
  unfold recv. simpl.
  destruct more as [|m more]; eexists; (split; [reflexivity|]); split;
    reflexivity.
Qed.

(** The inner loop when the socket still delivers all [need] missing
    bytes: it stops with exactly those, however they are segmented. *)
Lemma receive_payload need : forall self sock frame_size frame_data,
  frame_size - blen frame_data = Z.of_nat need ->
  (need <= length (pending sock))%nat ->
  exists n sock',
    run n self (Handler sock (RecvData frame_size frame_data)) =
      (self,
       Handler sock' (Decode frame_size
                        (frame_data ++ firstn need (pending sock))),
       []) /\
    pending sock' = skipn need (pending sock) /\
    ending sock' = ending sock.
Proof.
  induction need as [need IH] using lt_wf_ind.
  intros self sock fs fd Hneed Hav.
  destruct (Nat.eq_dec need 0) as [->|Hpos].
  - exists 1%nat, sock. unfold run, handle_client_step. simpl.
    assert (Hge : (blen fd <? fs) = false) by (apply Z.ltb_ge; lia).
    rewrite Hge. simpl. rewrite !app_nil_r. auto.
  - assert (Hlt : (blen fd <? fs) = true) by (apply Z.ltb_lt; lia).
    assert (Hbuf : 0 < Z.min (fs - blen fd) 4096) by lia.
    assert (Hne : pending sock <> []).
    { destruct (pending sock); [simpl in Hav; lia|discriminate]. }
    destruct (recv_data sock _ Hbuf Hne) as (chunk & sock1 & Hrecv & Hc).
    destruct (recv_received _ _ _ _ Hrecv) as (Hp & He & Hl).
    assert (Hcl : (length chunk <= need)%nat) by (unfold blen in *; lia).
    assert (Hcp : (0 < length chunk)%nat).
    { destruct chunk; [congruence|simpl; lia]. }
    destruct (IH (need - length chunk)%nat ltac:(lia) self sock1 fs
                 (fd ++ chunk)) as (n & sock' & Hrun & Hp' & He').
    { unfold blen in *. rewrite length_app. lia. }
    { rewrite Hp, length_app in Hav. lia. }
    assert (Hstep : handle_client_step self (Handler sock (RecvData fs fd)) =
                    (self, Handler sock1 (RecvData fs (fd ++ chunk)), [])).
    { unfold handle_client_step. simpl. rewrite Hlt, Hrecv.
      destruct chunk; [congruence|reflexivity]. }
    exists (S n), sock'. split; [|split].
    + rewrite (run_step _ _ _ _ _ _ _ _ _ Hstep Hrun). simpl.
      rewrite Hp, firstn_app, (firstn_all2 chunk) by lia.
      rewrite <- app_assoc. reflexivity.
    + rewrite Hp', Hp, skipn_app, (skipn_all2 chunk) by lia. reflexivity.
    + congruence.
Qed.

(** The inner loop when the peer closes first: it stops with what
    arrived. *)
Lemma receive_truncated k : forall self sock frame_size frame_data,
  length (pending sock) = k ->
  blen frame_data + blen (pending sock) < frame_size ->
  ending sock = PeerClosed ->
  exists n sock',
    run n self (Handler sock (RecvData frame_size frame_data)) =
      (self,
       Handler sock' (Decode frame_size (frame_data ++ pending sock)),
       []) /\
    pending sock' = [] /\ ending sock' = PeerClosed.
Proof.
  induction k as [k IH] using lt_wf_ind.
  intros self sock fs fd Hk Hshort Hend.
  assert (Hnn : 0 <= blen (pending sock)) by (unfold blen; lia).
  assert (Hlt : (blen fd <? fs) = true) by (apply Z.ltb_lt; lia).
  assert (Hbuf : 0 < Z.min (fs - blen fd) 4096) by lia.
  destruct (recv sock (Z.min (fs - blen fd) 4096)) as [chunk sock1|sock1]
    eqn:Hrecv.
  - destruct chunk as [|b chunk].
    + destruct (recv_empty _ _ _ Hbuf Hrecv) as (Hp & -> & _).
      exists 1%nat, (Socket [] PeerClosed).
      unfold run, handle_client_step. simpl.
      rewrite Hlt, Hrecv, Hp. simpl. rewrite !app_nil_r. auto.
    + destruct (recv_received _ _ _ _ Hrecv) as (Hp & He & _).
      destruct (IH (length (pending sock1)) ltac:(
                     rewrite <- Hk, Hp, length_app; simpl; lia)
                   self sock1 fs (fd ++ b :: chunk) eq_refl)
        as (n & sock' & Hrun & Hp' & He').
      { unfold blen in *. rewrite Hp in Hshort.
        rewrite !length_app in *. lia. }
      { congruence. }
      assert (Hstep : handle_client_step self (Handler sock (RecvData fs fd)) =
                      (self, Handler sock1 (RecvData fs (fd ++ b :: chunk)), [])).
      { unfold handle_client_step. simpl. rewrite Hlt, Hrecv. reflexivity. }
      exists (S n), sock'. split; [|auto].
      rewrite (run_step _ _ _ _ _ _ _ _ _ Hstep Hrun). simpl.
      rewrite Hp, <- app_assoc. reflexivity.
  - apply recv_raises in Hrecv. destruct Hrecv as (_ & _ & Hr). congruence.
Qed.

(** From the top of the loop through one whole framed message whose
    length field arrives in one piece. *)
Lemma receive_message self size_data frame_size payload more segs rest e :
  running self = true ->
  length size_data = 4%nat ->
  struct_unpack_I size_data = Some frame_size ->
  blen payload = frame_size ->
  more ++ concat segs = payload ++ rest ->
  exists n sock',
    run n self (Handler (Socket ((size_data ++ more) :: segs) e) LoopHead) =
      (self, Handler sock' (Decode frame_size payload), []) /\
    pending sock' = rest /\ ending sock' = e.
Proof.
  intros Hrun Hlen Hun Hpl Hstream.
  destruct (recv_header size_data more segs e Hlen) as (sock1 & Hrecv & Hp1 & He1).
  destruct (receive_payload (length payload) self sock1 frame_size [])
    as (n & sock' & Hr & Hp' & He').
  { unfold blen in *. simpl. lia. }
  { rewrite Hp1, Hstream, length_app. lia. }
  rewrite Hp1, Hstream in Hr, Hp'.
  rewrite firstn_app, firstn_all, Nat.sub_diag in Hr. simpl in Hr.
  rewrite app_nil_r in Hr.
  rewrite skipn_app, skipn_all, Nat.sub_diag in Hp'. simpl in Hp'.
  assert (Hs1 : handle_client_step self
                  (Handler (Socket ((size_data ++ more) :: segs) e) LoopHead) =
                (self, Handler (Socket ((size_data ++ more) :: segs) e) RecvSize,
                 [])).
  { unfold handle_client_step. simpl. rewrite Hrun. reflexivity. }
  assert (Hs2 : handle_client_step self
                  (Handler (Socket ((size_data ++ more) :: segs) e) RecvSize) =
                (self, Handler sock1 (RecvData frame_size []), [])).
  { unfold handle_client_step. simpl at_pc. simpl client_socket. rewrite Hrecv.
    destruct size_data; [discriminate|]. rewrite Hun. reflexivity. }
  exists (S (S n)), sock'. split; [|split; congruence].
  rewrite (run_step _ _ _ _ _ _ _ _ _ Hs1
             (run_step _ _ _ _ _ _ _ _ _ Hs2 Hr)).
  reflexivity.
Qed.

(** A handler that has returned went through its [finally:] block last:
    the store is empty and the trace ends with the clear. *)
Lemma run_returns n : forall self h self' h' tr,
  frame_lock self = false ->
  run n self h = (self', h', tr) ->
  at_pc h' = Done ->
  match at_pc h with
  | Done => self' = self /\ tr = []
  | Clear =>
      self' = set_current_frame None self /\
      tr = [Acquire; WriteFrame None; Release]
  | _ =>
      self' = set_current_frame None self /\
      exists pre, tr = pre ++ finally_events
  end.
Proof.
  induction n as [|n IH]; intros self h self' h' tr Hl Hrun Hd.
  - simpl in Hrun. injection Hrun as <- <- <-. rewrite Hd. auto.
  - simpl in Hrun.
    destruct (handle_client_step self h) as [[s1 h1] e1] eqn:Hs.
    destruct (run n s1 h1) as [[s2 h2] e2] eqn:Hr.
    injection Hrun as <- <- <-.
    destruct (pc_done_dec h) as [Hhd|Hnd].
    + rewrite Hhd. unfold handle_client_step in Hs. rewrite Hhd in Hs.
      injection Hs as <- <- <-.
      specialize (IH _ _ _ _ _ Hl Hr Hd). rewrite Hhd in IH. exact IH.
    + destruct (step_decreases _ _ _ _ _ Hl Hnd Hs) as [_ Hl1].
      specialize (IH _ _ _ _ _ Hl1 Hr Hd).
      destruct h as [sock p]. simpl in *.
      break_step Hs; simpl in *; try congruence;
        try (destruct IH as [-> [pre ->]]; split; [reflexivity|];
             rewrite ?app_comm_cons; eexists; reflexivity).
      * destruct IH as [-> ->]. split; [reflexivity|].
        exists []. reflexivity.
      * destruct IH as [-> ->]. auto.
Qed.

(** [handle_client] computes what any sufficiently long run computes. *)
Lemma handle_client_run n self sock self' h' tr :
  frame_lock self = false ->
  run n self (Handler sock LoopHead) = (self', h', tr) ->
  at_pc h' = Done ->
  handle_client self sock = (self', h', tr).
Proof.
  intros Hl Hrun Hd. unfold handle_client.
  set (h := Handler sock LoopHead) in *.
  pose proof (run_terminates (fuel h) self h Hl (Nat.le_refl _)) as Ht.
  destruct (run (fuel h) self h) as [[s2 h2] e2] eqn:Hf. simpl in Ht.
  pose proof (run_stable _ (Nat.max n (fuel h)) _ _ _ _ _ Hrun Hd
                (Nat.le_max_l _ _)) as H1.
  pose proof (run_stable _ (Nat.max n (fuel h)) _ _ _ _ _ Hf Ht
                (Nat.le_max_r _ _)) as H2.
  congruence.
Qed.

Lemma run_S_eq n self h s1 h1 e1 :
  handle_client_step self h = (s1, h1, e1) ->
  run (S n) self h =
  let '(s2, h2, e2) := run n s1 h1 in (s2, h2, e1 ++ e2).
Proof.
  intros Hs. simpl. rewrite Hs. reflexivity.
Qed.

Lemma run_trans n m self h s1 h1 e1 s2 h2 e2 :
  run n self h = (s1, h1, e1) ->
  run m s1 h1 = (s2, h2, e2) ->
  run (n + m) self h = (s2, h2, e1 ++ e2).
Proof.
  intros H1 H2. rewrite run_add, H1, H2. reflexivity.
Qed.

Lemma recv_closed sock bufsize :
  pending sock = [] -> ending sock = PeerClosed ->
  recv sock bufsize = Received [] (Socket [] PeerClosed).
Proof.
  unfold recv, pending. intros Hp He.
  rewrite (take_segment_nil _ _ Hp), He. reflexivity.
Qed.

End Runs.

(** Take the next step of a run whose program point is known, after
    [tac] has settled the tests of that step. *)
Ltac run1 tac :=
  match goal with
  | |- context [run (S ?n) ?s ?h] =>
      let H := fresh "Hstep" in
      eassert (H : handle_client_step s h = _)
        by (unfold handle_client_step; cbn [at_pc client_socket]; tac;
            reflexivity);
      rewrite (run_S_eq n _ _ _ _ _ H); clear H
  end.

(** ** Threads *)

Lemma no_frame_written_app tr1 tr2 :
  no_frame_written (tr1 ++ tr2) = true ->
  no_frame_written tr1 = true /\ no_frame_written tr2 = true.
Proof.
  unfold no_frame_written. rewrite forallb_app. apply andb_true_iff.
Qed.

Lemma nth_error_set_thread i t ts t0 :
  nth_error ts i = Some t0 -> nth_error (set_thread i t ts) i = Some t.
Proof.
  revert i. induction ts as [|a ts IH]; intros [|i]; simpl; try discriminate.
  - reflexivity.
  - apply IH.
Qed.

Lemma nth_error_set_thread_other i j t ts :
  i <> j -> nth_error (set_thread i t ts) j = nth_error ts j.
Proof.
  revert i j. induction ts as [|a ts IH]; intros [|i] [|j] Hne; simpl;
    try reflexivity; try congruence.
  apply IH. congruence.
Qed.

Section Threads.

Context {cv : Cv2}.

(** A step that assigns no frame leaves an empty store empty. *)
Lemma handle_client_step_empty self h self' h' ev :
  handle_client_step self h = (self', h', ev) ->
  no_frame_written ev = true ->
  current_frame self = None -> current_frame self' = None.
Proof.
  intros Hs Hnw Hc. destruct h as [sock p].
  break_step Hs; simpl in *; congruence.
Qed.

Lemma generate_step_frame self g self' g' ev :
  generate_step self g = (self', g', ev) ->
  current_frame self' = current_frame self.
Proof.
  unfold generate_step. intros Hs.
  destruct g; [destruct (frame_lock self)|]; injection Hs as <- <- <-;
    reflexivity.
Qed.

Lemma sys_step_empty i sys sys' ev :
  sys_step i sys = (sys', ev) ->
  no_frame_written ev = true ->
  current_frame (server sys) = None -> current_frame (server sys') = None.
Proof.
  unfold sys_step. intros Hs Hnw Hc.
  destruct (nth_error (threads sys) i) as [[h|g]|].
  - destruct (handle_client_step (server sys) h) as [[s1 h1] e1] eqn:E.
    injection Hs as <- <-. simpl.
    exact (handle_client_step_empty _ _ _ _ _ E Hnw Hc).
  - destruct (generate_step (server sys) g) as [[s1 g1] e1] eqn:E.
    injection Hs as <- <-. simpl.
    rewrite (generate_step_frame _ _ _ _ _ E). exact Hc.
  - injection Hs as <- <-. exact Hc.
Qed.

Lemma sys_run_empty sched : forall sys sys' tr,
  sys_run sched sys = (sys', tr) ->
  no_frame_written tr = true ->
  current_frame (server sys) = None -> current_frame (server sys') = None.
Proof.
  induction sched as [|i sched IH]; intros sys sys' tr Hr Hnw Hc; simpl in Hr.
  - injection Hr as <- <-. exact Hc.
  - destruct (sys_step i sys) as [sys1 e1] eqn:E1.
    destruct (sys_run sched sys1) as [sys2 e2] eqn:E2.
    injection Hr as <- <-.
    apply no_frame_written_app in Hnw. destruct Hnw as [Hn1 Hn2].
    exact (IH _ _ _ E2 Hn2 (sys_step_empty _ _ _ _ E1 Hn1 Hc)).
Qed.

(** The only step that ends a handler is the clear of its [finally:]
    block. *)
Lemma handle_client_step_done self h self' h' ev :
  handle_client_step self h = (self', h', ev) ->
  at_pc h <> Done -> at_pc h' = Done ->
  at_pc h = Clear /\ frame_lock self = false /\
  self' = set_current_frame None self /\
  ev = [Acquire; WriteFrame None; Release].
Proof.
  intros Hs Hnd Hd. destruct h as [sock p].
  break_step Hs; simpl in *; try congruence; auto.
Qed.

Lemma set_thread_same ts : forall i t,
  nth_error ts i = Some t -> set_thread i t ts = ts.
Proof.
  induction ts as [|a ts IH]; intros [|i] t H; simpl in *;
    try discriminate; try reflexivity.
  - injection H as ->. reflexivity.
  - rewrite (IH i t H). reflexivity.
Qed.

Lemma set_thread_twice ts : forall i t t',
  set_thread i t (set_thread i t' ts) = set_thread i t ts.
Proof.
  induction ts as [|a ts IH]; intros [|i] t t'; simpl; try reflexivity.
  rewrite IH. reflexivity.
Qed.

(** A handler scheduled on its own runs as [run] says. *)
Lemma sys_run_alone n : forall sys i h,
  nth_error (threads sys) i = Some (Ingest h) ->
  sys_run (repeat i n) sys =
  let '(self', h', tr) := run n (server sys) h in
  (System self' (set_thread i (Ingest h') (threads sys)), tr).
Proof.
  induction n as [|n IH]; intros sys i h Hth.
  - simpl. rewrite (set_thread_same _ _ _ Hth). destruct sys. reflexivity.
  - cbn [repeat sys_run run]. unfold sys_step. rewrite Hth.
    destruct (handle_client_step (server sys) h) as [[s1 h1] e1].
    rewrite (IH (System s1 (set_thread i (Ingest h1) (threads sys))) i h1
                (nth_error_set_thread _ _ _ _ Hth)).
    cbn [server threads].
    destruct (run n s1 h1) as [[s2 h2] e2].
    rewrite set_thread_twice. reflexivity.
Qed.

(** C7, as the code has it. Whatever a connection still delivers before
    it closes or fails, its handler, given its steps while the lock is
    free, reads it to the end, runs its [finally:] block and returns with
    the store empty; and in any interleaving, once a handler has
    returned the store is empty.  From then on, as long as no thread
    assigns a frame again, every read of the store finds it empty:
    [/status] answers [connected: false] and [/video_feed] sends the
    placeholder. *)
Theorem disconnect_clears_state :
  (forall sys i h,
      nth_error (threads sys) i = Some (Ingest h) ->
      at_pc h <> Done ->
      frame_lock (server sys) = false ->
      exists h1 tr1,
        let sys1 := System (set_current_frame None (server sys))
                           (set_thread i (Ingest h1) (threads sys)) in
        sys_run (repeat i (fuel h)) sys = (sys1, tr1) /\
        at_pc h1 = Done /\
        forall sched sys2 tr,
          sys_run sched sys1 = (sys2, tr) ->
          no_frame_written tr = true ->
          current_frame (server sys2) = None /\
          connected (fst (status (server sys2))) = false /\
          frame_bytes_of (server sys2) = imencode_jpg placeholder None) /\
  (forall sys i h sys1 ev h1,
      nth_error (threads sys) i = Some (Ingest h) ->
      at_pc h <> Done ->
      sys_step i sys = (sys1, ev) ->
      nth_error (threads sys1) i = Some (Ingest h1) ->
      at_pc h1 = Done ->
      forall sched sys2 tr,
        sys_run sched sys1 = (sys2, tr) ->
        no_frame_written tr = true ->
        current_frame (server sys2) = None /\
        connected (fst (status (server sys2))) = false /\
        frame_bytes_of (server sys2) = imencode_jpg placeholder None).
Proof.
  assert (Hkeep : forall sys1 sched sys2 tr,
             current_frame (server sys1) = None ->
             sys_run sched sys1 = (sys2, tr) ->
             no_frame_written tr = true ->
             current_frame (server sys2) = None /\
             connected (fst (status (server sys2))) = false /\
             frame_bytes_of (server sys2) = imencode_jpg placeholder None).
  { intros sys1 sched sys2 tr Hc1 Hrun Hnw.
    pose proof (sys_run_empty _ _ _ _ Hrun Hnw Hc1) as Hc2.
    unfold status, frame_bytes_of. simpl. rewrite Hc2. auto. }
  split.
  - intros sys i h Hth Hnd Hl.
    pose proof (run_terminates (fuel h) (server sys) h Hl (Nat.le_refl _))
      as Ht.
    pose proof (sys_run_alone (fuel h) sys i h Hth) as Halone.
    destruct (run (fuel h) (server sys) h) as [[s1 h1] tr1] eqn:Hr.
    simpl in Ht.
    pose proof (run_returns _ _ _ _ _ _ Hl Hr Ht) as Hret.
    assert (Hs1 : s1 = set_current_frame None (server sys)).
    { destruct (at_pc h); try (destruct Hret as [-> _]; reflexivity).
      congruence. }
    subst s1. exists h1, tr1. split; [exact Halone|]. split; [exact Ht|].
    intros sched sys2 tr. apply Hkeep. reflexivity.
  - intros sys i h sys1 ev h1 Hth Hnd Hstep Hth1 Hd sched sys2 tr.
    apply Hkeep.
    unfold sys_step in Hstep. rewrite Hth in Hstep.
    destruct (handle_client_step (server sys) h) as [[s1 h'] e1] eqn:E.
    injection Hstep as <- <-. simpl in *.
    rewrite (nth_error_set_thread _ _ _ _ Hth) in Hth1.
    injection Hth1 as <-.
    destruct (handle_client_step_done _ _ _ _ _ E Hnd Hd) as (_ & _ & -> & _).
    reflexivity.
Qed.

(** C10. Whatever the socket delivers and whatever the store holds,
    [handle_client] ends by running its [finally:] block, which assigns
    [None] to [current_frame]; among several threads, the handler that
    reaches the clear empties the store whatever the other threads are
    doing, and leaves them as they are. *)
Theorem finally_clears_unconditionally :
  (forall self sock,
      frame_lock self = false ->
      exists h' pre,
        handle_client self sock =
          (set_current_frame None self, h', pre ++ finally_events) /\
        at_pc h' = Done) /\
  (forall sys i h,
      nth_error (threads sys) i = Some (Ingest h) ->
      at_pc h = Clear ->
      frame_lock (server sys) = false ->
      exists sys1,
        sys_step i sys = (sys1, [Acquire; WriteFrame None; Release]) /\
        current_frame (server sys1) = None /\
        forall j, j <> i ->
          nth_error (threads sys1) j = nth_error (threads sys) j).
Proof.
  split.
  - intros self sock Hl. unfold handle_client.
    set (h := Handler sock LoopHead).
    pose proof (run_terminates (fuel h) self h Hl (Nat.le_refl _)) as Ht.
    destruct (run (fuel h) self h) as [[s' h'] tr] eqn:Hr. simpl in Ht.
    pose proof (run_returns _ _ _ _ _ _ Hl Hr Ht) as Hret. simpl in Hret.
    destruct Hret as [-> [pre ->]]. eauto.
  - intros sys i h Hth Hpc Hl. unfold sys_step. rewrite Hth.
    destruct h as [sock p]. simpl in Hpc. subst p.
    unfold handle_client_step. simpl. rewrite Hl.
    eexists. split; [reflexivity|]. split; [reflexivity|].
    intros j Hj. simpl. apply nth_error_set_thread_other. congruence.
Qed.

End Threads.

(** ** The ingest protocol *)

Section Ingest.

Context {cv : Cv2}.

Lemma handle_client_step_no_write self h self' h' ev :
  handle_client_step self h = (self', h', ev) ->
  no_frame_written ev = true ->
  current_frame self' = current_frame self \/ current_frame self' = None.
Proof.
  intros Hs Hnw. destruct h as [sock p].
  break_step Hs; simpl in *; auto; congruence.
Qed.

Lemma run_no_write n : forall self h self' h' tr,
  run n self h = (self', h', tr) ->
  no_frame_written tr = true ->
  current_frame self' = current_frame self \/ current_frame self' = None.
Proof.
  induction n as [|n IH]; intros self h self' h' tr Hr Hnw; simpl in Hr.
  - injection Hr as <- <- <-. auto.
  - destruct (handle_client_step self h) as [[s1 h1] e1] eqn:Hs.
    destruct (run n s1 h1) as [[s2 h2] e2] eqn:Hr2.
    injection Hr as <- <- <-.
    apply no_frame_written_app in Hnw. destruct Hnw as [Hn1 Hn2].
    destruct (IH _ _ _ _ _ Hr2 Hn2) as [H|H];
      destruct (handle_client_step_no_write _ _ _ _ _ Hs Hn1) as [H'|H'];
      rewrite H; auto.
Qed.

(** When the whole run assigns no frame, no state on the way holds
    anything but what the store held at the start, or nothing. *)
Lemma run_never_writes n self h self' h' tr :
  run n self h = (self', h', tr) ->
  at_pc h' = Done ->
  no_frame_written tr = true ->
  forall k,
    current_frame (fst (fst (run k self h))) = current_frame self \/
    current_frame (fst (fst (run k self h))) = None.
Proof.
  intros Hr Hd Hnw k.
  destruct (Nat.le_gt_cases k n) as [Hle|Hgt].
  - replace n with (k + (n - k))%nat in Hr by lia.
    rewrite run_add in Hr.
    destruct (run k self h) as [[s1 h1] e1] eqn:Hk.
    destruct (run (n - k) s1 h1) as [[s2 h2] e2].
    injection Hr as <- <- <-.
    apply no_frame_written_app in Hnw. destruct Hnw as [Hn1 _].
    exact (run_no_write _ _ _ _ _ _ Hk Hn1).
  - rewrite (run_stable _ k _ _ _ _ _ Hr Hd) by lia.
    exact (run_no_write _ _ _ _ _ _ Hr Hnw).
Qed.

(** C6. A framed message that arrives whole but does not decode is
    dropped: the handler prints a warning and is back at the top of its
    loop on the same open connection, about to read the next length
    field, and the server object is what it was. *)
Theorem decode_failure_is_not_fatal :
  forall self size_data payload more segs rest e,
    running self = true ->
    struct_pack_I (blen payload) = Some size_data ->
    more ++ concat segs = payload ++ rest ->
    (forall frame, imdecode payload <> Decoded frame) ->
    exists n sock' msg,
      run n self (Handler (Socket ((size_data ++ more) :: segs) e) LoopHead) =
        (self, Handler sock' LoopHead, [Print msg]) /\
      (msg = FailedToDecode \/ msg = FrameDecodingError) /\
      pending sock' = rest /\ ending sock' = e /\
      handle_client_step self (Handler sock' LoopHead) =
        (self, Handler sock' RecvSize, []).
Proof.
  intros self size_data payload more segs rest e Hrun Hpack Hstream Hbad.
  destruct (receive_message self size_data (blen payload) payload more segs
              rest e Hrun (struct_pack_length _ _ Hpack)
              (struct_unpack_pack _ _ Hpack) eq_refl Hstream)
    as (n & sock' & Hr & Hp & He).
  assert (Hnext : handle_client_step self (Handler sock' LoopHead) =
                  (self, Handler sock' RecvSize, [])).
  { unfold handle_client_step. simpl. rewrite Hrun. reflexivity. }
  destruct (imdecode payload) as [frame| |] eqn:Hdec.
  - exfalso. exact (Hbad frame eq_refl).
  - exists (n + 1)%nat, sock', FailedToDecode.
    split; [|auto 6].
    apply (run_trans _ _ _ _ _ _ _ _ _ _ Hr).
    unfold run, handle_client_step. simpl.
    rewrite Z.eqb_refl, Hdec. reflexivity.
  - exists (n + 1)%nat, sock', FrameDecodingError.
    split; [|auto 6].
    apply (run_trans _ _ _ _ _ _ _ _ _ _ Hr).
    unfold run, handle_client_step. simpl.
    rewrite Z.eqb_refl, Hdec. reflexivity.
Qed.

(** C1, as the code has it. A framed message whose length field arrives
    in one piece and whose payload decodes is stored decoded: once the
    handler is back at the top of its loop, [current_frame] is the image
    [imdecode] made of the payload, [/status] answers
    [connected: true], and the next [/video_feed] part carries that image
    encoded again as JPEG at quality 85. *)
Theorem frame_reaches_viewers :
  forall self size_data payload more segs rest e frame,
    running self = true ->
    frame_lock self = false ->
    struct_pack_I (blen payload) = Some size_data ->
    more ++ concat segs = payload ++ rest ->
    imdecode payload = Decoded frame ->
    exists n sock' self',
      run n self (Handler (Socket ((size_data ++ more) :: segs) e) LoopHead) =
        (self', Handler sock' LoopHead,
         [Acquire; WriteFrame (Some frame); Release;
          Print (ReceivedFrame (nth 1 (shape frame) 0)
                               (nth 0 (shape frame) 0))]) /\
      self' = set_current_frame (Some frame) self /\
      current_frame self' = Some frame /\
      pending sock' = rest /\ ending sock' = e /\
      connected (fst (status self')) = true /\
      generate_step self' Poll =
        (set_frame_lock true self', AtYield,
         [Acquire; ReadFrame;
          Yield (multipart_chunk (imencode_jpg frame (Some 85)))]).
Proof.
  intros self size_data payload more segs rest e frame
         Hrun Hl Hpack Hstream Hdec.
  destruct (receive_message self size_data (blen payload) payload more segs
              rest e Hrun (struct_pack_length _ _ Hpack)
              (struct_unpack_pack _ _ Hpack) eq_refl Hstream)
    as (n & sock' & Hr & Hp & He).
  exists (n + 2)%nat, sock', (set_current_frame (Some frame) self).
  split; [|repeat split; auto].
  - apply (run_trans _ _ _ _ _ _ _ _ _ _ Hr).
    unfold run, handle_client_step. simpl.
    rewrite Z.eqb_refl, Hdec. simpl. rewrite Hl. reflexivity.
  - unfold generate_step. simpl. rewrite Hl. reflexivity.
Qed.

(** C4. A connection that delivers a length field announcing
    [frame_size] bytes and is closed by the peer after fewer, however
    the bytes are segmented: the handler reports the failure -- an
    incomplete frame when the length field came in one piece -- and
    returns through its [finally:] block.  It assigns no frame: at every
    point of the run the store holds what it held before or nothing, and
    at the end nothing. *)
Theorem truncated_frame_ends_connection :
  forall self sock size_data frame_size partial,
    running self = true ->
    frame_lock self = false ->
    struct_pack_I frame_size = Some size_data ->
    pending sock = size_data ++ partial ->
    ending sock = PeerClosed ->
    blen partial < frame_size ->
    exists h' msg,
      handle_client self sock =
        (set_current_frame None self, h', Print msg :: finally_events) /\
      at_pc h' = Done /\
      (msg = IncompleteFrame \/ msg = ClientHandlingError) /\
      (forall more segs,
          incoming sock = (size_data ++ more) :: segs ->
          msg = IncompleteFrame) /\
      forall k,
        current_frame (fst (fst (run k self (Handler sock LoopHead)))) =
          current_frame self \/
        current_frame (fst (fst (run k self (Handler sock LoopHead)))) = None.
Proof.
  intros self sock size_data frame_size partial
         Hrun Hl Hpack Hpend Hend Hshort.
  pose proof (struct_pack_length _ _ Hpack) as Hlen.
  pose proof (struct_unpack_pack _ _ Hpack) as Hun.
  assert (Hs1 : handle_client_step self (Handler sock LoopHead) =
                (self, Handler sock RecvSize, [])).
  { unfold handle_client_step. simpl. rewrite Hrun. reflexivity. }
  assert (Hne : pending sock <> []).
  { rewrite Hpend. destruct size_data; discriminate. }
  destruct (recv_data sock 4 ltac:(lia) Hne) as (chunk & sock1 & Hrecv & Hc).
  destruct (recv_received _ _ _ _ Hrecv) as (Hp & He & _).
  assert (Hend1 : ending sock1 = PeerClosed) by congruence.
  destruct (Nat.eq_dec (length chunk) 4) as [H4|Hn4].
  - (* the length field came whole *)
    rewrite Hpend in Hp.
    destruct (app_eq_length _ _ _ _ Hp ltac:(lia)) as [<- Hpart].
    destruct (receive_truncated _ self sock1 frame_size [] eq_refl)
      as (n & sock2 & Hr & Hp2 & He2).
    { rewrite <- Hpart. unfold blen in *. simpl. lia. }
    { exact Hend1. }
    simpl in Hr. rewrite <- Hpart in Hr.
    assert (Hs2 : handle_client_step self (Handler sock RecvSize) =
                  (self, Handler sock1 (RecvData frame_size []), [])).
    { unfold handle_client_step. cbn [at_pc client_socket]. rewrite Hrecv.
      destruct size_data; [discriminate|]. rewrite Hun. reflexivity. }
    assert (Htail : run 5 self (Handler sock2 (Decode frame_size partial)) =
                    (set_current_frame None self,
                     Handler (Socket [] PeerClosed) Done,
                     Print IncompleteFrame :: finally_events)).
    { assert (Hneq : (blen partial =? frame_size) = false)
        by (apply Z.eqb_neq; lia).
      run1 ltac:(rewrite Hneq).
      run1 ltac:(rewrite Hrun).
      run1 ltac:(rewrite (recv_closed sock2 4 Hp2 He2)).
      run1 idtac.
      run1 ltac:(rewrite Hl).
      reflexivity. }
    pose proof (run_step _ _ _ _ _ _ _ _ _ Hs1
                  (run_step _ _ _ _ _ _ _ _ _ Hs2
                     (run_trans _ _ _ _ _ _ _ _ _ _ Hr Htail))) as Hall.
    simpl app in Hall.
    exists (Handler (Socket [] PeerClosed) Done), IncompleteFrame.
    split; [exact (handle_client_run _ _ _ _ _ _ Hl Hall eq_refl)|].
    split; [reflexivity|]. split; [auto|]. split; [reflexivity|].
    exact (run_never_writes _ _ _ _ _ _ Hall eq_refl eq_refl).
  - (* [recv(4)] returned fewer than four bytes *)
    assert (Hs2 : handle_client_step self (Handler sock RecvSize) =
                  (self, Handler sock1 Finally, [Print ClientHandlingError])).
    { unfold handle_client_step. cbn [at_pc client_socket]. rewrite Hrecv.
      destruct chunk as [|b chunk]; [congruence|].
      rewrite (struct_unpack_short _ Hn4). reflexivity. }
    assert (Htail : run 2 self (Handler sock1 Finally) =
                    (set_current_frame None self, Handler sock1 Done,
                     finally_events)).
    { run1 idtac. run1 ltac:(rewrite Hl). reflexivity. }
    pose proof (run_step _ _ _ _ _ _ _ _ _ Hs1
                  (run_step _ _ _ _ _ _ _ _ _ Hs2 Htail)) as Hall.
    simpl app in Hall.
    exists (Handler sock1 Done), ClientHandlingError.
    split; [exact (handle_client_run _ _ _ _ _ _ Hl Hall eq_refl)|].
    split; [reflexivity|]. split; [auto|]. split.
    + intros more segs Hinc. exfalso.
      destruct sock as [inc e]. simpl in Hinc. subst inc.
      destruct (recv_header size_data more segs e Hlen) as (s' & Hr' & _).
      rewrite Hr' in Hrecv. injection Hrecv as <- _. exact (Hn4 Hlen).
    + exact (run_never_writes _ _ _ _ _ _ Hall eq_refl eq_refl).
Qed.

(** A pass of the inner loop that goes round again has added one
    [recv]'s worth to [frame_data]: at least one byte, at most 4096, and
    no more than was missing. *)
Lemma inner_recv_capped self sock frame_size frame_data self' sock'
      frame_size' frame_data' ev :
  handle_client_step self (Handler sock (RecvData frame_size frame_data)) =
    (self', Handler sock' (RecvData frame_size' frame_data'), ev) ->
  frame_size' = frame_size /\
  exists chunk,
    frame_data' = frame_data ++ chunk /\
    0 < blen chunk <= 4096 /\
    blen chunk <= frame_size - blen frame_data.
Proof.
  unfold handle_client_step. cbn [at_pc client_socket].
  destruct (blen frame_data <? frame_size) eqn:Hlt; [|discriminate].
  apply Z.ltb_lt in Hlt.
  destruct (recv sock (Z.min (frame_size - blen frame_data) 4096))
    as [chunk sock1|sock1] eqn:Hrecv; [|discriminate].
  destruct (recv_received _ _ _ _ Hrecv) as (_ & _ & Hcap).
  destruct chunk as [|b chunk]; [discriminate|].
  intros H. injection H as _ _ <- <- _.
  split; [reflexivity|]. exists (b :: chunk).
  split; [reflexivity|]. unfold blen in *. simpl length in *. lia.
Qed.

(** C3, as the code has it. The handler sets no maximum on the length
    field: whatever length the four bytes encode, it goes on to read the
    payload and holds all of it in [frame_data] before it decodes; no
    message is refused for its length.  It reads the payload at most
    4096 bytes per [recv]. *)
Theorem no_length_limit :
  (forall self size_data payload more segs rest e,
      running self = true ->
      struct_pack_I (blen payload) = Some size_data ->
      more ++ concat segs = payload ++ rest ->
      exists n sock',
        run n self
          (Handler (Socket ((size_data ++ more) :: segs) e) LoopHead) =
          (self, Handler sock' (Decode (blen payload) payload), []) /\
        buffered (Handler sock' (Decode (blen payload) payload))
          = blen payload /\
        pending sock' = rest /\ ending sock' = e) /\
  (forall self sock frame_size frame_data self' sock' frame_data' ev,
      handle_client_step self (Handler sock (RecvData frame_size frame_data)) =
        (self', Handler sock' (RecvData frame_size frame_data'), ev) ->
      exists chunk,
        frame_data' = frame_data ++ chunk /\
        0 < blen chunk <= 4096 /\
        blen chunk <= frame_size - blen frame_data).
Proof.
  split.
  - intros self size_data payload more segs rest e Hrun Hpack Hstream.
    destruct (receive_message self size_data (blen payload) payload more segs
                rest e Hrun (struct_pack_length _ _ Hpack)
                (struct_unpack_pack _ _ Hpack) eq_refl Hstream)
      as (n & sock' & Hr & Hp & He).
    exists n, sock'. auto.
  - intros self sock fs fd self' sock' fd' ev Hs.
    exact (proj2 (inner_recv_capped _ _ _ _ _ _ _ _ _ Hs)).
Qed.

(** C5, on the code. [recv(4)] is called once: when the peer closes
    after two bytes of a length field, or when the four bytes arrive in
    two pieces on a live connection, [struct.unpack] raises and the
    handler reports a client handling error; only a close before the
    first byte ends the loop without one. *)
Theorem short_length_field_is_an_error :
  handle_client Stub.server0 (Socket [[x00; x00]] PeerClosed) =
    (set_current_frame None Stub.server0,
     Handler (Socket [] PeerClosed) Done,
     Print ClientHandlingError :: finally_events) /\
  handle_client Stub.server0
    (Socket [[x00; x00]; [x00; x07]; Stub.pixel_jpg] PeerClosed) =
    (set_current_frame None Stub.server0,
     Handler (Socket [[x00; x07]; Stub.pixel_jpg] PeerClosed) Done,
     Print ClientHandlingError :: finally_events) /\
  handle_client Stub.server0 (Socket [] PeerClosed) =
    (set_current_frame None Stub.server0,
     Handler (Socket [] PeerClosed) Done,
     finally_events).
Proof.
  repeat split; reflexivity.
Qed.

End Ingest.

(** ** The store *)

Section Store.

Context {cv : Cv2}.

(** C2, as the code has it. The server object carries no sequence
    number.  An assignment to [current_frame] changes that field and no
    other; every step of a handler leaves the object as it was or
    assigns [current_frame]; so a step after which [current_frame] is
    what it was has left no mark on the object. *)
Theorem store_has_no_sequence_number :
  (forall v self,
      set_current_frame v self =
        Server (host self) (port self) (web_port self) v
               (frame_lock self) (running self) (server_socket self)) /\
  (forall self h self' h' ev,
      handle_client_step self h = (self', h', ev) ->
      self' = set_current_frame (current_frame self') self) /\
  (forall self h self' h' ev,
      handle_client_step self h = (self', h', ev) ->
      current_frame self' = current_frame self -> self' = self).
Proof.
  assert (Hstep : forall self h self' h' ev,
             handle_client_step self h = (self', h', ev) ->
             self' = set_current_frame (current_frame self') self).
  { intros self h self' h' ev Hs. destruct h as [sock p].
    break_step Hs; try reflexivity;
      match goal with s : VideoServer |- _ => destruct s; reflexivity end. }
  split; [reflexivity|]. split; [exact Hstep|].
  intros self h self' h' ev Hs Heq.
  rewrite (Hstep _ _ _ _ _ Hs), Heq. destruct self. reflexivity.
Qed.

(** Handlers and generators touch [current_frame] under the lock. *)
Lemma handle_client_step_guarded self h self' h' ev :
  handle_client_step self h = (self', h', ev) -> guarded ev = true.
Proof.
  intros Hs. destruct h as [sock p]. break_step Hs; reflexivity.
Qed.

Lemma generate_step_guarded self self' g' ev :
  generate_step self Poll = (self', g', ev) -> guarded ev = true.
Proof.
  unfold generate_step. destruct (frame_lock self); intros Hs;
    injection Hs as <- <- <-; reflexivity.
Qed.

(** C9, on the code. [/status] reads [current_frame] without taking
    [frame_lock]: its only event is the read, and it answers the same
    whether or not another thread holds the lock. *)
Theorem status_reads_without_lock :
  forall self,
    snd (status self) = [ReadFrame] /\
    guarded (snd (status self)) = false /\
    status (set_frame_lock true self) = status self.
Proof.
  intros self. repeat split.
Qed.

Lemma multipart_chunk_bytes frame_bytes :
  multipart_chunk frame_bytes =
    list_byte_of_string "--frame" ++ [x0d; x0a] ++
    list_byte_of_string "Content-Type: image/jpeg" ++
    [x0d; x0a; x0d; x0a] ++ frame_bytes ++ [x0d; x0a].
Proof.
  reflexivity.
Qed.

Lemma np_zeros_480_640_3 :
  np_zeros [480; 640; 3] =
    NdArray [480; 640; 3] (repeat x00 (Z.to_nat 921600)).
Proof.
  unfold np_zeros. do 3 f_equal.
Qed.

(** C8. A new server holds no frame.  While the store is empty the
    part the generator yields carries the placeholder: the JPEG, at the
    default quality, of a 480 by 640 image of three channels, all zero,
    on which the text "No Video Stream" was drawn.  Every part it yields,
    placeholder or live, is the boundary line, the content-type line, an
    empty line, the image bytes -- the current frame as JPEG at quality
    85, or the placeholder -- and a line end. *)
Theorem placeholder_when_empty :
  let blank := NdArray [480; 640; 3] (repeat x00 (Z.to_nat 921600)) in
  let no_signal :=
    putText blank "No Video Stream" (150, 240) FONT_HERSHEY_SIMPLEX 1
            (255, 255, 255) 2 in
  let part frame_bytes :=
    list_byte_of_string "--frame" ++ [x0d; x0a] ++
    list_byte_of_string "Content-Type: image/jpeg" ++
    [x0d; x0a; x0d; x0a] ++ frame_bytes ++ [x0d; x0a] in
  (forall host port web_port,
      current_frame (init host port web_port) = None) /\
  (forall self,
      current_frame self = None -> frame_lock self = false ->
      generate_step self Poll =
        (set_frame_lock true self, AtYield,
         [Acquire; ReadFrame; Yield (part (imencode_jpg no_signal None))])) /\
  shape no_signal = [480; 640; 3] /\
  blen (buffer blank) = 480 * 640 * 3 /\
  (forall self g self' g' ev chunk,
      generate_step self g = (self', g', ev) ->
      In (Yield chunk) ev ->
      chunk = part match current_frame self with
                   | Some frame => imencode_jpg frame (Some 85)
                   | None => imencode_jpg no_signal None
                   end).
Proof.
  intros blank no_signal part.
  assert (Hph : placeholder = no_signal).
  { unfold placeholder, no_signal, blank. rewrite np_zeros_480_640_3.
    reflexivity. }
  assert (Hpart : forall frame_bytes,
             multipart_chunk frame_bytes = part frame_bytes)
    by (intros; apply multipart_chunk_bytes).
  split; [reflexivity|]. split; [|split; [|split]].
  - intros self Hc Hl. unfold generate_step, frame_bytes_of.
    rewrite Hl, Hc, Hpart, Hph. reflexivity.
  - unfold no_signal. rewrite putText_shape. reflexivity.
  - unfold blank, blen. cbn [buffer]. rewrite repeat_length.
    rewrite Z2Nat.id by lia. reflexivity.
  - intros self g self' g' ev chunk Hs Hin. unfold generate_step in Hs.
    destruct g; [destruct (frame_lock self)|]; injection Hs as <- <- <-;
      cbn [In] in Hin;
      repeat (destruct Hin as [Hin|Hin]; try discriminate Hin);
      try contradiction.
    injection Hin as <-. rewrite Hpart. unfold frame_bytes_of.
    rewrite Hph. reflexivity.
Qed.

End Store.

(** * Further properties *)

(** ** The length field *)

Lemma byte_of_Z_val (b : byte) : byte_of_Z (byte_val b) = b.
Proof.
  unfold byte_of_Z. pose proof (byte_val_range b) as Hr.
  rewrite Z.mod_small by exact Hr.
  unfold byte_val. rewrite N2Z.id, Byte.of_to_N. reflexivity.
Qed.

Lemma byte_of_Z_mod (a b : Z) :
  a mod 256 = b mod 256 -> byte_of_Z a = byte_of_Z b.
Proof.
  unfold byte_of_Z. intros ->. reflexivity.
Qed.

Lemma struct_pack_none (n : Z) :
  struct_pack_I n = None <-> ~ 0 <= n < 4294967296.
Proof.
  unfold struct_pack_I.
  destruct ((0 <=? n) && (n <? 4294967296)) eqn:E.
  - apply andb_true_iff in E. destruct E as [H0 H1].
    apply Z.leb_le in H0. apply Z.ltb_lt in H1.
    split; [discriminate|]. intros H. exfalso. apply H. lia.
  - apply andb_false_iff in E. split; [|reflexivity].
    intros _ [H0 H1]. destruct E as [E|E].
    + apply Z.leb_gt in E. lia.
    + apply Z.ltb_ge in E. lia.
Qed.

(** X1. The length field is a bijection between the numbers below
    [2^32] and the buffers of four bytes: what [send_frame] packs,
    [handle_client] unpacks to the same number, and every four bytes
    unpack to a number in range that packs to the same bytes. *)
Theorem length_field_round_trip :
  (forall n data,
      struct_pack_I n = Some data ->
      length data = 4%nat /\ struct_unpack_I data = Some n) /\
  (forall data,
      length data = 4%nat ->
      exists n, struct_unpack_I data = Some n /\
                0 <= n < 4294967296 /\ struct_pack_I n = Some data) /\
  (forall n, struct_pack_I n = None <-> ~ 0 <= n < 4294967296).
Proof.
  split; [|split].
  - intros n data H. split.
    + exact (struct_pack_length _ _ H).
    + exact (struct_unpack_pack _ _ H).
  - intros data Hlen.
    destruct data as [|b0 [|b1 [|b2 [|b3 [|b4 tl]]]]]; try discriminate.
    eexists. split; [reflexivity|].
    pose proof (byte_val_range b0). pose proof (byte_val_range b1).
    pose proof (byte_val_range b2). pose proof (byte_val_range b3).
    set (n := byte_val b0 * 16777216 + byte_val b1 * 65536
              + byte_val b2 * 256 + byte_val b3).
    assert (Hn : 0 <= n < 4294967296) by (unfold n; lia).
    split; [exact Hn|].
    unfold struct_pack_I.
    replace ((0 <=? n) && (n <? 4294967296)) with true
      by (symmetry; apply andb_true_iff; split;
          [apply Z.leb_le|apply Z.ltb_lt]; lia).
    rewrite <- (byte_of_Z_val b0), <- (byte_of_Z_val b1),
            <- (byte_of_Z_val b2), <- (byte_of_Z_val b3) at 1.
    assert (E0 : byte_of_Z (n / 16777216) = byte_of_Z (byte_val b0)).
    { f_equal. unfold n. Z.div_mod_to_equations. lia. }
    assert (E1 : byte_of_Z (n / 65536) = byte_of_Z (byte_val b1)).
    { apply byte_of_Z_mod. unfold n. Z.div_mod_to_equations. lia. }
    assert (E2 : byte_of_Z (n / 256) = byte_of_Z (byte_val b2)).
    { apply byte_of_Z_mod. unfold n. Z.div_mod_to_equations. lia. }
    assert (E3 : byte_of_Z n = byte_of_Z (byte_val b3)).
    { apply byte_of_Z_mod. unfold n. Z.div_mod_to_equations. lia. }
    rewrite E0, E1, E2, E3. reflexivity.
  - intros n. unfold struct_pack_I.
    destruct ((0 <=? n) && (n <? 4294967296)) eqn:E.
    + apply andb_true_iff in E. destruct E as [H0 H1].
      apply Z.leb_le in H0. apply Z.ltb_lt in H1.
      split; [discriminate|]. intros H. exfalso. apply H. lia.
    + apply andb_false_iff in E. split; [|reflexivity].
      intros _ [H0 H1]. destruct E as [E|E].
      * apply Z.leb_gt in E. lia.
      * apply Z.ltb_ge in E. lia.
Qed.

(** ** The receive buffer *)

Lemma struct_unpack_range data n :
  struct_unpack_I data = Some n -> 0 <= n < 4294967296.
Proof.
  destruct data as [|b0 [|b1 [|b2 [|b3 [|b4 tl]]]]]; try discriminate.
  intros H. injection H as <-.
  pose proof (byte_val_range b0). pose proof (byte_val_range b1).
  pose proof (byte_val_range b2). pose proof (byte_val_range b3). lia.
Qed.

Section Buffer.

Context {cv : Cv2}.

Lemma handle_client_step_bounded self h self' h' ev :
  handle_client_step self h = (self', h', ev) ->
  buffer_bounded h -> buffer_bounded h'.
Proof.
  intros Hs Hb. destruct h as [sock p]. unfold buffer_bounded in *.
  break_step Hs; cbn [at_pc] in *; auto.
  - match goal with
    | H : struct_unpack_I _ = Some _ |- _ => apply struct_unpack_range in H
    end.
    unfold blen. simpl. lia.
  - match goal with
    | H : recv _ _ = Received _ _ |- _ =>
        apply recv_received in H; destruct H as (_ & _ & H)
    end.
    match goal with
    | H : (_ <? _) = true |- _ => apply Z.ltb_lt in H
    end.
    unfold blen in *. rewrite length_app. lia.
Qed.

Lemma buffered_nonneg h : 0 <= buffered h.
Proof.
  unfold buffered, blen. destruct (at_pc h); lia.
Qed.

Lemma handle_client_step_growth self h self' h' ev :
  handle_client_step self h = (self', h', ev) ->
  buffered h' <= buffered h + 4096.
Proof.
  intros Hs. pose proof (buffered_nonneg h) as Hh.
  destruct h as [sock p].
  break_step Hs;
    try match goal with
      | H : recv _ _ = Received _ _ |- _ =>
          apply recv_received in H; destruct H as (_ & _ & H)
      end;
    unfold buffered, blen in *; cbn [at_pc] in *;
    rewrite ?length_app; simpl length in *; lia.
Qed.

(** X2. Whatever arrives on the socket, the handler never holds more
    in [frame_data] than the length field announced, and so never
    4 GiB or more; and [frame_data] grows by at most 4096 bytes from one
    step to the next: each [recv] of the inner loop asks for no more
    than is missing, and for no more than 4096 bytes. *)
Theorem frame_data_bounded :
  forall n self sock,
    buffer_bounded (snd (fst (run n self (Handler sock LoopHead)))) /\
    buffered (snd (fst (run n self (Handler sock LoopHead)))) < 4294967296 /\
    buffered (snd (fst (run (S n) self (Handler sock LoopHead)))) <=
      buffered (snd (fst (run n self (Handler sock LoopHead)))) + 4096.
Proof.
  assert (Hinv : forall n self h,
             buffer_bounded h -> buffer_bounded (snd (fst (run n self h)))).
  { induction n as [|n IH]; intros self h Hb; simpl; [exact Hb|].
    destruct (handle_client_step self h) as [[s1 h1] e1] eqn:Hs.
    specialize (IH s1 h1 (handle_client_step_bounded _ _ _ _ _ Hs Hb)).
    destruct (run n s1 h1) as [[s2 h2] e2]. exact IH. }
  intros n self sock.
  pose proof (Hinv n self (Handler sock LoopHead) I) as Hb.
  split; [exact Hb|]. split.
  - unfold buffer_bounded, buffered in *.
    destruct (at_pc (snd (fst (run n self (Handler sock LoopHead))))); lia.
  - replace (S n) with (n + 1)%nat by lia. rewrite run_add.
    destruct (run n self (Handler sock LoopHead)) as [[s1 h1] e1].
    simpl.
    destruct (handle_client_step s1 h1) as [[s2 h2] e2] eqn:Hs.
    simpl. exact (handle_client_step_growth _ _ _ _ _ Hs).
Qed.

End Buffer.

(** ** Messages one after the other *)

Lemma take_segment_skip empties segs bufsize :
  Forall (eq []) empties ->
  take_segment (empties ++ segs) bufsize = take_segment segs bufsize.
Proof.
  induction 1 as [|seg empties <- _ IH]; simpl; auto.
Qed.

Lemma concat_empties (empties : list bytes) :
  Forall (eq []) empties -> concat empties = [].
Proof.
  induction 1 as [|seg empties <- _ IH]; simpl; auto.
Qed.

Section Sequence.

Context {cv : Cv2}.

(** The inner loop on a payload that arrives as one segment: it takes
    the segment in pieces of at most 4096 bytes and leaves the segments
    behind it untouched. *)
Lemma receive_segment k : forall payload self segs e frame_size frame_data,
  length payload = k ->
  frame_size - blen frame_data = blen payload ->
  exists n empties,
    Forall (eq []) empties /\
    run n self (Handler (Socket (payload :: segs) e)
                        (RecvData frame_size frame_data)) =
      (self,
       Handler (Socket (empties ++ segs) e)
               (Decode frame_size (frame_data ++ payload)),
       []).
Proof.
  induction k as [k IH] using lt_wf_ind.
  intros payload self segs e fs fd Hk Hneed.
  destruct payload as [|b payload].
  - exists 1%nat, [[]]. split; [repeat constructor|].
    assert (Hge : (blen fd <? fs) = false)
      by (apply Z.ltb_ge; unfold blen in *; simpl in *; lia).
    run1 ltac:(rewrite Hge). rewrite app_nil_r. reflexivity.
  - assert (Hlt : (blen fd <? fs) = true)
      by (apply Z.ltb_lt; unfold blen in *; simpl in *; lia).
    set (p := b :: payload) in *.
    destruct (Z.to_nat (Z.min (fs - blen fd) 4096)) as [|k'] eqn:Hbuf.
    { unfold blen in *. simpl in *. lia. }
    assert (Hrecv : recv (Socket (p :: segs) e) (Z.min (fs - blen fd) 4096) =
                    Received (firstn (S k') p)
                      (Socket match skipn (S k') p with
                              | [] => segs
                              | remaining => remaining :: segs
                              end e)).
    { unfold recv. simpl incoming. rewrite Hbuf. reflexivity. }
    assert (Hstep : handle_client_step self
                      (Handler (Socket (p :: segs) e) (RecvData fs fd)) =
                    (self,
                     Handler (Socket match skipn (S k') p with
                                     | [] => segs
                                     | remaining => remaining :: segs
                                     end e)
                             (RecvData fs (fd ++ firstn (S k') p)),
                     [])).
    { unfold handle_client_step. cbn [at_pc client_socket].
      rewrite Hlt, Hrecv. reflexivity. }
    pose proof (firstn_skipn (S k') p) as Hsplit.
    destruct (skipn (S k') p) as [|r0 r] eqn:Hsk.
    + rewrite app_nil_r in Hsplit. rewrite Hsplit in Hstep.
      exists 2%nat, []. split; [constructor|].
      rewrite (run_S_eq _ _ _ _ _ _ Hstep).
      assert (Hge : (blen (fd ++ p) <? fs) = false).
      { apply Z.ltb_ge. unfold blen in *. rewrite length_app. lia. }
      run1 ltac:(rewrite Hge). reflexivity.
    + assert (Hlen : length p = (length (firstn (S k') p) + length (r0 :: r))%nat).
      { rewrite <- Hsplit at 1. apply length_app. }
      assert (Hf : (0 < length (firstn (S k') p))%nat) by (simpl; lia).
      destruct (IH (length (r0 :: r)) ltac:(lia) (r0 :: r) self segs e fs
                   (fd ++ firstn (S k') p) eq_refl)
        as (n & empties & Hemp & Hrun).
      { unfold blen in *. rewrite length_app. lia. }
      exists (S n), empties. split; [exact Hemp|].
      rewrite (run_S_eq _ _ _ _ _ _ Hstep), Hrun.
      rewrite <- app_assoc, Hsplit. reflexivity.
Qed.

Lemma store_after_fields self payload :
  running (store_after self payload) = running self /\
  frame_lock (store_after self payload) = frame_lock self.
Proof.
  unfold store_after. destruct (imdecode payload); auto.
Qed.

(** One message as [send_frame] sends it, at the front of the socket. *)
Lemma handle_sent_message self empties size_data payload segs e :
  Forall (eq []) empties ->
  running self = true ->
  frame_lock self = false ->
  struct_pack_I (blen payload) = Some size_data ->
  exists n empties',
    Forall (eq []) empties' /\
    run n self
      (Handler (Socket (empties ++ size_data :: payload :: segs) e) LoopHead) =
      (store_after self payload,
       Handler (Socket (empties' ++ segs) e) LoopHead,
       message_events payload).
Proof.
  intros Hemp Hrun Hl Hpack.
  pose proof (struct_pack_length _ _ Hpack) as Hlen.
  pose proof (struct_unpack_pack _ _ Hpack) as Hun.
  destruct (receive_segment _ payload self segs e (blen payload) [] eq_refl)
    as (n & empties' & Hemp' & Hr).
  { unfold blen. simpl. lia. }
  simpl app in Hr.
  set (sock := Socket (empties ++ size_data :: payload :: segs) e).
  assert (Hrecv : recv sock 4 = Received size_data (Socket (payload :: segs) e)).
  { unfold recv, sock. simpl incoming. simpl ending.
    rewrite (take_segment_skip _ _ _ Hemp).
    destruct size_data as [|b0 [|b1 [|b2 [|b3 [|b4 tl]]]]]; try discriminate.
    reflexivity. }
  assert (Hhead : run 2 self (Handler sock LoopHead) =
                  (self, Handler (Socket (payload :: segs) e)
                                 (RecvData (blen payload) []), [])).
  { run1 ltac:(rewrite Hrun).
    run1 ltac:(rewrite Hrecv; destruct size_data; [discriminate|];
               rewrite Hun).
    reflexivity. }
  assert (Htail : exists m,
             run m self (Handler (Socket (empties' ++ segs) e)
                                 (Decode (blen payload) payload)) =
             (store_after self payload,
              Handler (Socket (empties' ++ segs) e) LoopHead,
              message_events payload)).
  { unfold store_after, message_events.
    destruct (imdecode payload) as [frame| |] eqn:Hdec.
    - exists 2%nat.
      run1 ltac:(rewrite Z.eqb_refl, Hdec).
      run1 ltac:(rewrite Hl). reflexivity.
    - exists 1%nat. run1 ltac:(rewrite Z.eqb_refl, Hdec). reflexivity.
    - exists 1%nat. run1 ltac:(rewrite Z.eqb_refl, Hdec). reflexivity. }
  destruct Htail as [m Htail].
  exists (2 + n + m)%nat, empties'. split; [exact Hemp'|].
  exact (run_trans _ _ _ _ _ _ _ _ _ _
           (run_trans _ _ _ _ _ _ _ _ _ _ Hhead Hr) Htail).
Qed.

Lemma handle_sent_messages msgs : forall self empties e,
  Forall (eq []) empties ->
  running self = true ->
  frame_lock self = false ->
  Forall (fun m => struct_pack_I (blen (snd m)) = Some (fst m)) msgs ->
  exists n empties',
    Forall (eq []) empties' /\
    run n self (Handler (Socket (empties ++ framed msgs) e) LoopHead) =
      (fold_left store_after (map snd msgs) self,
       Handler (Socket empties' e) LoopHead,
       flat_map message_events (map snd msgs)).
Proof.
  induction msgs as [|[size_data payload] msgs IH];
    intros self empties e Hemp Hrun Hl Hpack.
  - exists 0%nat, empties. split; [exact Hemp|].
    simpl. rewrite app_nil_r. reflexivity.
  - inversion Hpack as [|m ms Hp Hps]; subst. simpl in Hp.
    destruct (handle_sent_message self empties size_data payload
                (framed msgs) e Hemp Hrun Hl Hp)
      as (n1 & emp1 & Hemp1 & Hr1).
    destruct (store_after_fields self payload) as [Hrun1 Hl1].
    rewrite Hrun in Hrun1. rewrite Hl in Hl1.
    destruct (IH (store_after self payload) emp1 e Hemp1 Hrun1 Hl1 Hps)
      as (n2 & emp2 & Hemp2 & Hr2).
    exists (n1 + n2)%nat, emp2. split; [exact Hemp2|].
    exact (run_trans _ _ _ _ _ _ _ _ _ _ Hr1 Hr2).
Qed.

(** X3. Messages sent one after the other on one connection, each as
    [send_frame] sends it, are handled in the order sent: the trace is
    the per-message events in that order, every payload that decodes is
    assigned to [current_frame] in turn and the others are skipped, so
    the store ends holding the last one that decoded; the handler is
    then back at the top of its loop with nothing left to read. *)
Theorem frames_stored_in_order :
  forall msgs self e,
    running self = true ->
    frame_lock self = false ->
    Forall (fun m => struct_pack_I (blen (snd m)) = Some (fst m)) msgs ->
    exists n sock',
      run n self (Handler (Socket (framed msgs) e) LoopHead) =
        (fold_left store_after (map snd msgs) self,
         Handler sock' LoopHead,
         flat_map message_events (map snd msgs)) /\
      pending sock' = [] /\ ending sock' = e.
Proof.
  intros msgs self e Hrun Hl Hpack.
  destruct (handle_sent_messages msgs self [] e (Forall_nil _) Hrun Hl Hpack)
    as (n & empties & Hemp & Hr).
  exists n, (Socket empties e). split; [exact Hr|]. split; [|reflexivity].
  exact (concat_empties _ Hemp).
Qed.

Lemma sendall_raises sock data sent sock' :
  sendall sock data = SendRaises sent sock' ->
  carries sock (length data) = false /\
  ((sock = NoSocket /\ sent = []) \/
   exists rest, rest <> [] /\ sent ++ rest = data).
Proof.
  unfold sendall, carries. destruct sock as [|[room|]]; try discriminate.
  - intros H. injection H as <- <-. auto.
  - destruct (length data <=? room)%nat eqn:E; [discriminate|].
    apply Nat.leb_gt in E. intros H. injection H as <- <-.
    split; [reflexivity|]. right.
    exists (skipn room data). split.
    + intros Hnil. apply (f_equal (@length byte)) in Hnil.
      rewrite length_skipn in Hnil. simpl in Hnil. lia.
    + apply firstn_skipn.
Qed.

Lemma sendall_sent sock data sock' :
  sendall sock data = SentAll sock' ->
  carries sock (length data) = true /\
  forall n, carries sock' n = carries sock (length data + n)%nat.
Proof.
  unfold sendall, carries. destruct sock as [|[room|]]; try discriminate.
  - destruct (length data <=? room)%nat eqn:E; [|discriminate].
    intros H. injection H as <-. split; [reflexivity|].
    apply Nat.leb_le in E. intros n.
    destruct (n <=? room - length data)%nat eqn:E1;
      destruct (length data + n <=? room)%nat eqn:E2; try reflexivity.
    + apply Nat.leb_le in E1. apply Nat.leb_gt in E2. lia.
    + apply Nat.leb_gt in E1. apply Nat.leb_le in E2. lia.
  - intros H. injection H as <-. auto.
Qed.

(** X4. [send_frame] returns [True] exactly when [cv2.imencode]
    returns, the JPEG is shorter than 4 GiB and the socket carries the
    length field and the JPEG; it has then put exactly those two on the
    wire, and the handler that receives them as sent decodes the
    producer's JPEG bytes, stores the image if they decode, and has
    nothing left to read.  When it returns [False] it has put on the wire
    nothing, or a proper prefix of the message and never all of it. *)
Theorem send_frame_delivers :
  forall frame encodes sock,
    let frame_data := imencode_jpg frame (Some 85) in
    (fst (fst (send_frame frame encodes sock)) = true <->
     encodes = true /\ blen frame_data < 4294967296 /\
     carries sock (4 + length frame_data) = true) /\
    (forall wire sock',
        send_frame frame encodes sock = (true, wire, sock') ->
        (exists size_data,
            struct_pack_I (blen frame_data) = Some size_data /\
            wire = [size_data; frame_data]) /\
        forall self e,
          running self = true ->
          frame_lock self = false ->
          exists n sock_in,
            run n self (Handler (Socket wire e) LoopHead) =
              (store_after self frame_data, Handler sock_in LoopHead,
               message_events frame_data) /\
            pending sock_in = [] /\ ending sock_in = e) /\
    (forall wire sock',
        send_frame frame encodes sock = (false, wire, sock') ->
        concat wire = [] \/
        exists size_data rest,
          struct_pack_I (blen frame_data) = Some size_data /\
          rest <> [] /\
          concat wire ++ rest = size_data ++ frame_data).
Proof.
  intros frame encodes sock frame_data.
  assert (H0 : 0 <= blen frame_data) by (unfold blen; lia).
  unfold send_frame. fold frame_data.
  destruct encodes.
  2:{ split; [|split]; cbn [fst].
      - split; [discriminate|]. intros (H & _). discriminate H.
      - discriminate.
      - intros wire sock' H. injection H as <- _. auto. }
  destruct (struct_pack_I (blen frame_data)) as [size_data|] eqn:Hpack.
  2:{ apply (proj1 (struct_pack_none _)) in Hpack.
      split; [|split]; cbn [fst].
      - split; [discriminate|]. intros (_ & H & _). lia.
      - discriminate.
      - intros wire sock' H. injection H as <- _. auto. }
  pose proof (struct_pack_length _ _ Hpack) as Hlen.
  assert (Hlt : blen frame_data < 4294967296).
  { destruct (Z_lt_ge_dec (blen frame_data) 4294967296) as [H|H]; [exact H|].
    assert (Hn : struct_pack_I (blen frame_data) = None)
      by (apply (proj2 (struct_pack_none _)); lia).
    congruence. }
  destruct (sendall sock size_data) as [sock1|sent1 sock1] eqn:Hs1.
  - destruct (sendall_sent _ _ _ Hs1) as [Hc1 Hc1'].
    destruct (sendall sock1 frame_data) as [sock2|sent2 sock2] eqn:Hs2.
    + destruct (sendall_sent _ _ _ Hs2) as [Hc2 _].
      rewrite Hc1', Hlen in Hc2.
      split; [|split]; cbn [fst].
      * split; auto.
      * intros wire sock' H. injection H as <- _.
        split; [eauto|]. intros self e Hrun Hl.
        destruct (handle_sent_message self [] size_data frame_data [] e
                    (Forall_nil _) Hrun Hl Hpack)
          as (n & empties & Hemp & Hr).
        rewrite app_nil_r in Hr. exists n, (Socket empties e).
        split; [exact Hr|].
        split; [exact (concat_empties _ Hemp)|reflexivity].
      * discriminate.
    + destruct (sendall_raises _ _ _ _ Hs2) as [Hc2 Hrest].
      rewrite Hc1', Hlen in Hc2.
      split; [|split]; cbn [fst].
      * split; [discriminate|]. intros (_ & _ & H). congruence.
      * discriminate.
      * intros wire sock' H. injection H as <- _. right.
        exists size_data. simpl. rewrite app_nil_r.
        destruct Hrest as [[-> _]|(rest & Hne & <-)].
        -- exfalso. clear -Hs1. unfold sendall in Hs1.
           destruct sock as [|[room|]]; try discriminate Hs1.
           destruct (length size_data <=? room)%nat; discriminate Hs1.
        -- exists rest. rewrite <- app_assoc. auto.
  - destruct (sendall_raises _ _ _ _ Hs1) as [Hc1 Hrest].
    rewrite Hlen in Hc1.
    assert (Hc : carries sock (4 + length frame_data) = false).
    { unfold carries in *. destruct sock as [|[room|]]; try congruence.
      apply Nat.leb_gt in Hc1. apply Nat.leb_gt. lia. }
    split; [|split]; cbn [fst].
    + split; [discriminate|]. intros (_ & _ & H). congruence.
    + discriminate.
    + intros wire sock' H. injection H as <- _. simpl. rewrite app_nil_r.
      destruct Hrest as [[_ ->]|(rest & Hne & Heq)]; [left; reflexivity|].
      right. exists size_data, (rest ++ frame_data).
      split; [reflexivity|]. split.
      * destruct rest; [congruence|discriminate].
      * rewrite app_assoc, Heq. reflexivity.
Qed.

End Sequence.

(** ** A reset inside a message *)

Section ResetPath.

Context {cv : Cv2}.

Lemma receive_reset k : forall self sock frame_size frame_data,
  length (pending sock) = k ->
  blen frame_data + blen (pending sock) < frame_size ->
  ending sock = ConnReset ->
  exists n sock',
    run n self (Handler sock (RecvData frame_size frame_data)) =
      (self, Handler sock' Finally, [Print ClientHandlingError]).
Proof.
  induction k as [k IH] using lt_wf_ind.
  intros self sock fs fd Hk Hshort Hend.
  assert (Hnn : 0 <= blen (pending sock)) by (unfold blen; lia).
  assert (Hlt : (blen fd <? fs) = true) by (apply Z.ltb_lt; lia).
  assert (Hbuf : 0 < Z.min (fs - blen fd) 4096) by lia.
  destruct (recv sock (Z.min (fs - blen fd) 4096)) as [chunk sock1|sock1]
    eqn:Hrecv.
  - destruct chunk as [|b chunk].
    + destruct (recv_empty _ _ _ Hbuf Hrecv) as (_ & _ & He). congruence.
    + destruct (recv_received _ _ _ _ Hrecv) as (Hp & He & _).
      destruct (IH (length (pending sock1)) ltac:(
                     rewrite <- Hk, Hp, length_app; simpl; lia)
                   self sock1 fs (fd ++ b :: chunk) eq_refl)
        as (n & sock' & Hrun).
      { unfold blen in *. rewrite Hp in Hshort.
        rewrite !length_app in *. lia. }
      { congruence. }
      exists (S n), sock'.
      run1 ltac:(rewrite Hlt, Hrecv). rewrite Hrun. reflexivity.
  - exists 1%nat, sock1. run1 ltac:(rewrite Hlt, Hrecv). reflexivity.
Qed.

(** X5. A connection reset at any point inside a message -- before its
    first byte, inside the length field or inside the payload, however
    the bytes are segmented -- ends the handler through its
    [except Exception:] clause: it reports a client handling error,
    assigns no frame and clears the store. *)
Theorem reset_inside_message :
  forall self sock size_data payload rest,
    running self = true ->
    frame_lock self = false ->
    struct_pack_I (blen payload) = Some size_data ->
    pending sock ++ rest = size_data ++ payload ->
    rest <> [] ->
    ending sock = ConnReset ->
    exists h',
      handle_client self sock =
        (set_current_frame None self, h',
         Print ClientHandlingError :: finally_events) /\
      at_pc h' = Done.
Proof.
  intros self sock size_data payload rest Hrun Hl Hpack Hpre Hrest Hend.
  pose proof (struct_pack_length _ _ Hpack) as Hlen.
  pose proof (struct_unpack_pack _ _ Hpack) as Hun.
  assert (Hs1 : handle_client_step self (Handler sock LoopHead) =
                (self, Handler sock RecvSize, [])).
  { unfold handle_client_step. simpl. rewrite Hrun. reflexivity. }
  assert (Hfin : forall sock1,
             run 2 self (Handler sock1 Finally) =
             (set_current_frame None self, Handler sock1 Done,
              finally_events)).
  { intros sock1. run1 idtac. run1 ltac:(rewrite Hl). reflexivity. }
  assert (Hmid : exists n sock1,
             run n self (Handler sock RecvSize) =
             (self, Handler sock1 Finally, [Print ClientHandlingError])).
  { destruct (recv sock 4) as [chunk sock1|sock1] eqn:Hrecv.
    - destruct chunk as [|b chunk].
      + destruct (recv_empty sock 4 sock1 ltac:(lia) Hrecv) as (_ & _ & He).
        congruence.
      + destruct (recv_received _ _ _ _ Hrecv) as (Hp & He & Hl4).
        destruct (Nat.eq_dec (length (b :: chunk)) 4) as [H4|Hn4].
        * rewrite Hp, <- app_assoc in Hpre.
          destruct (app_eq_length _ _ _ _ Hpre ltac:(lia)) as [Hsd Hpay].
          assert (Hshort : blen [] + blen (pending sock1) < blen payload).
          { rewrite <- Hpay. unfold blen. rewrite length_app. simpl.
            destruct rest; [congruence|simpl; lia]. }
          destruct (receive_reset _ self sock1 (blen payload) [] eq_refl
                      Hshort ltac:(congruence)) as (n & sock2 & Hr).
          exists (S n), sock2.
          run1 ltac:(rewrite Hrecv, Hsd, Hun). rewrite Hr. reflexivity.
        * exists 1%nat, sock1.
          run1 ltac:(rewrite Hrecv, (struct_unpack_short _ Hn4)).
          reflexivity.
    - exists 1%nat, sock1. run1 ltac:(rewrite Hrecv). reflexivity. }
  destruct Hmid as (n & sock1 & Hmid).
  pose proof (run_step _ _ _ _ _ _ _ _ _ Hs1
                (run_trans _ _ _ _ _ _ _ _ _ _ Hmid (Hfin sock1))) as Hall.
  simpl app in Hall.
  exists (Handler sock1 Done).
  split; [exact (handle_client_run _ _ _ _ _ _ Hl Hall eq_refl)|reflexivity].
Qed.

End ResetPath.

(** ** Threads and the lock *)

Lemma last_write_app v tr1 tr2 :
  last_write v (tr1 ++ tr2) = last_write (last_write v tr1) tr2.
Proof.
  apply fold_left_app.
Qed.

Lemma held_after_app b tr1 tr2 :
  held_after b (tr1 ++ tr2) = held_after (held_after b tr1) tr2.
Proof.
  apply fold_left_app.
Qed.

Lemma lock_ok_app tr1 : forall b tr2,
  lock_ok b (tr1 ++ tr2) = lock_ok b tr1 && lock_ok (held_after b tr1) tr2.
Proof.
  induction tr1 as [|e tr1 IH]; intros b tr2; [reflexivity|].
  destruct e; simpl; rewrite IH; unfold held_after; simpl;
    try reflexivity; rewrite andb_assoc; reflexivity.
Qed.

Lemma existsb_assignment_app tr1 tr2 :
  existsb is_assignment (tr1 ++ tr2) =
  existsb is_assignment tr1 || existsb is_assignment tr2.
Proof.
  apply existsb_app.
Qed.

Lemma holders_set_thread ts : forall i t t0,
  nth_error ts i = Some t0 ->
  (holders (set_thread i t ts) + (if holds_lock t0 then 1 else 0) =
   holders ts + (if holds_lock t then 1 else 0))%nat.
Proof.
  unfold holders.
  induction ts as [|a ts IH]; intros [|i] t t0 H; simpl in *;
    try discriminate.
  - injection H as ->. destruct (holds_lock t0), (holds_lock t); simpl; lia.
  - specialize (IH i t t0 H). destruct (holds_lock a); simpl; lia.
Qed.

Lemma is_viewer_at_set_thread ts i h h' j :
  nth_error ts i = Some (Ingest h) ->
  is_viewer_at (set_thread i (Ingest h') ts) j = is_viewer_at ts j.
Proof.
  intros H. unfold is_viewer_at.
  destruct (Nat.eq_dec i j) as [<-|Hne].
  - rewrite (nth_error_set_thread _ _ _ _ H), H. reflexivity.
  - rewrite (nth_error_set_thread_other _ _ _ _ Hne). reflexivity.
Qed.

Section Locking.

Context {cv : Cv2}.

Lemma handle_client_step_trace self h self' h' ev :
  handle_client_step self h = (self', h', ev) ->
  current_frame self' = last_write (current_frame self) ev /\
  host self' = host self /\ port self' = port self /\
  web_port self' = web_port self /\ running self' = running self /\
  server_socket self' = server_socket self /\
  frame_lock self' = frame_lock self /\
  lock_ok (frame_lock self) ev = true /\
  held_after (frame_lock self) ev = frame_lock self.
Proof.
  intros Hs. destruct h as [sock p].
  break_step Hs; unfold held_after; simpl; repeat split; congruence.
Qed.

Lemma generate_step_trace self g self' g' ev :
  generate_step self g = (self', g', ev) ->
  current_frame self' = last_write (current_frame self) ev /\
  host self' = host self /\ port self' = port self /\
  web_port self' = web_port self /\ running self' = running self /\
  server_socket self' = server_socket self.
Proof.
  unfold generate_step. intros Hs.
  destruct g; [destruct (frame_lock self)|]; injection Hs as <- <- <-;
    repeat split; reflexivity.
Qed.

(** X6. Whatever the threads do, in whatever order, [current_frame]
    is what the last assignment of the trace put there -- a frame from
    whichever handler wrote last, or [None] from whichever handler
    ended last -- and what it was at the start if nothing was
    assigned. *)
Theorem store_is_last_assignment :
  forall sched sys,
    current_frame (server (fst (sys_run sched sys))) =
    last_write (current_frame (server sys)) (snd (sys_run sched sys)).
Proof.
  induction sched as [|i sched IH]; intros sys; [reflexivity|].
  simpl. destruct (sys_step i sys) as [sys1 e1] eqn:E1.
  specialize (IH sys1).
  destruct (sys_run sched sys1) as [sys2 e2]. simpl in *.
  rewrite IH, last_write_app. f_equal.
  unfold sys_step in E1.
  destruct (nth_error (threads sys) i) as [[h|g]|].
  - destruct (handle_client_step (server sys) h) as [[s1 h1] ev] eqn:E.
    injection E1 as <- <-. exact (proj1 (handle_client_step_trace _ _ _ _ _ E)).
  - destruct (generate_step (server sys) g) as [[s1 g1] ev] eqn:E.
    injection E1 as <- <-. exact (proj1 (generate_step_trace _ _ _ _ _ E)).
  - injection E1 as <- <-. reflexivity.
Qed.

(** X7. No handler and no generator ever changes the host, the ports,
    the running flag or the listening socket of the server object: after
    any schedule they are what they were, and [/status] reports the
    ports the server was built with. *)
Theorem threads_keep_configuration :
  forall sched sys,
    let self := server sys in
    let self' := server (fst (sys_run sched sys)) in
    host self' = host self /\ port self' = port self /\
    web_port self' = web_port self /\ running self' = running self /\
    server_socket self' = server_socket self /\
    tcp_port (fst (status self')) = port self /\
    status_web_port (fst (status self')) = web_port self.
Proof.
  assert (Hstep : forall i sys,
             let self := server sys in
             let self' := server (fst (sys_step i sys)) in
             host self' = host self /\ port self' = port self /\
             web_port self' = web_port self /\ running self' = running self /\
             server_socket self' = server_socket self).
  { intros i sys. unfold sys_step.
    destruct (nth_error (threads sys) i) as [[h|g]|].
    - destruct (handle_client_step (server sys) h) as [[s1 h1] ev] eqn:E.
      simpl. destruct (handle_client_step_trace _ _ _ _ _ E)
        as (_ & H1 & H2 & H3 & H4 & H5 & _). auto.
    - destruct (generate_step (server sys) g) as [[s1 g1] ev] eqn:E.
      simpl. destruct (generate_step_trace _ _ _ _ _ E)
        as (_ & H1 & H2 & H3 & H4 & H5). auto.
    - simpl. auto. }
  assert (Hrun : forall sched sys,
             let self := server sys in
             let self' := server (fst (sys_run sched sys)) in
             host self' = host self /\ port self' = port self /\
             web_port self' = web_port self /\ running self' = running self /\
             server_socket self' = server_socket self).
  { induction sched as [|i sched IH]; intros sys; simpl; [auto|].
    pose proof (Hstep i sys) as H1. simpl in H1.
    destruct (sys_step i sys) as [sys1 e1].
    pose proof (IH sys1) as H2. simpl in H2.
    destruct (sys_run sched sys1) as [sys2 e2]. simpl in *.
    destruct H1 as (A1 & A2 & A3 & A4 & A5).
    destruct H2 as (B1 & B2 & B3 & B4 & B5).
    repeat split; congruence. }
  intros sched sys. pose proof (Hrun sched sys) as H. simpl in *.
  destruct H as (A1 & A2 & A3 & A4 & A5). auto 10.
Qed.

(** X8. While the lock is held -- a generator is suspended at its
    [yield], inside [with self.frame_lock:] -- nothing the ingest
    handlers do changes the server object: no frame is written and no
    disconnect clears the store until that generator is resumed. *)
Theorem suspended_viewer_blocks_ingest :
  forall sched sys,
    frame_lock (server sys) = true ->
    forallb (fun i => negb (is_viewer_at (threads sys) i)) sched = true ->
    server (fst (sys_run sched sys)) = server sys /\
    existsb is_assignment (snd (sys_run sched sys)) = false.
Proof.
  induction sched as [|i sched IH]; intros sys Hl Hing; [auto|].
  simpl in Hing. apply andb_true_iff in Hing. destruct Hing as [Hi Hing].
  simpl. destruct (sys_step i sys) as [sys1 e1] eqn:E1.
  assert (H1 : server sys1 = server sys /\ existsb is_assignment e1 = false /\
               forall j, is_viewer_at (threads sys1) j
                         = is_viewer_at (threads sys) j).
  { unfold sys_step in E1. unfold is_viewer_at in Hi.
    destruct (nth_error (threads sys) i) as [[h|g]|] eqn:Hth;
      [|discriminate|injection E1 as <- <-; auto].
    destruct (handle_client_step (server sys) h) as [[s1 h1] ev] eqn:E.
    injection E1 as <- <-. simpl.
    split; [|split].
    - destruct h as [sock p]. break_step E; congruence.
    - destruct h as [sock p]. break_step E; try reflexivity; congruence.
    - intros j. exact (is_viewer_at_set_thread _ _ _ _ _ Hth). }
  destruct H1 as (Hs1 & He1 & Hk1).
  assert (Hing1 : forallb (fun i => negb (is_viewer_at (threads sys1) i)) sched
                  = true).
  { rewrite <- Hing. clear -Hk1.
    induction sched as [|j sched IHs]; simpl; [reflexivity|].
    rewrite Hk1, IHs. reflexivity. }
  specialize (IH sys1 ltac:(congruence) Hing1).
  destruct (sys_run sched sys1) as [sys2 e2]. simpl in *.
  destruct IH as [IH1 IH2]. split; [congruence|].
  rewrite existsb_assignment_app, He1, IH2. reflexivity.
Qed.

(** X9. Starting with the lock held exactly when one generator is
    inside its [with] block, every interleaving of handlers and
    generators keeps it so: the lock is never taken while held nor
    released while free, [current_frame] is read and assigned only
    while it is held, and at most one generator is ever inside its
    [with] block. *)
Theorem lock_discipline :
  forall sched sys,
    lock_consistent sys ->
    lock_ok (frame_lock (server sys)) (snd (sys_run sched sys)) = true /\
    lock_consistent (fst (sys_run sched sys)) /\
    (holders (threads (fst (sys_run sched sys))) <= 1)%nat.
Proof.
  assert (Hstep : forall i sys sys1 e1,
             lock_consistent sys -> sys_step i sys = (sys1, e1) ->
             lock_ok (frame_lock (server sys)) e1 = true /\
             held_after (frame_lock (server sys)) e1
               = frame_lock (server sys1) /\
             lock_consistent sys1).
  { intros i sys sys1 e1 Hc E1. unfold sys_step in E1.
    unfold lock_consistent in *.
    destruct (nth_error (threads sys) i) as [[h|g]|] eqn:Hth.
    - destruct (handle_client_step (server sys) h) as [[s1 h1] ev] eqn:E.
      injection E1 as <- <-. simpl.
      destruct (handle_client_step_trace _ _ _ _ _ E)
        as (_ & _ & _ & _ & _ & _ & Hlk & Hok & Hh).
      pose proof (holders_set_thread _ _ (Ingest h1) _ Hth) as Hcnt.
      simpl in Hcnt. rewrite Hlk, Hh. repeat split; auto. lia.
    - pose proof (holders_set_thread (threads sys) i) as Hcnt.
      unfold generate_step in E1.
      destruct g.
      + destruct (frame_lock (server sys)) eqn:Hl.
        * injection E1 as <- <-. simpl.
          specialize (Hcnt (Viewer Poll) _ Hth). simpl in Hcnt.
          rewrite Hl. repeat split; auto. lia.
        * injection E1 as <- <-. simpl.
          specialize (Hcnt (Viewer AtYield) _ Hth). simpl in Hcnt.
          repeat split; auto. lia.
      + injection E1 as <- <-. simpl.
        specialize (Hcnt (Viewer Poll) _ Hth). simpl in Hcnt.
        destruct (frame_lock (server sys)) eqn:Hl.
        * repeat split; auto. lia.
        * exfalso. lia.
    - injection E1 as <- <-. auto. }
  assert (Hrun : forall sched sys,
             lock_consistent sys ->
             lock_ok (frame_lock (server sys)) (snd (sys_run sched sys)) = true /\
             lock_consistent (fst (sys_run sched sys))).
  { induction sched as [|i sched IH]; intros sys Hc; simpl; [auto|].
    destruct (sys_step i sys) as [sys1 e1] eqn:E1.
    destruct (Hstep _ _ _ _ Hc E1) as (Hok & Hh & Hc1).
    specialize (IH sys1 Hc1).
    destruct (sys_run sched sys1) as [sys2 e2]. simpl in *.
    destruct IH as [IH1 IH2]. split; [|exact IH2].
    rewrite lock_ok_app, Hok, Hh, IH1. reflexivity. }
  intros sched sys Hc. destruct (Hrun sched sys Hc) as [H1 H2].
  split; [exact H1|]. split; [exact H2|].
  unfold lock_consistent in H2. rewrite H2.
  destruct (frame_lock (server (fst (sys_run sched sys)))); lia.
Qed.

(** X10. Once [stop()] has cleared the running flag, a handler at the
    top of its loop reads nothing more: it leaves whatever is pending on
    its socket unread, runs its [finally:] block and clears the store. *)
Theorem stopped_server_reads_nothing :
  forall self sock,
    frame_lock self = false ->
    handle_client (stop self) sock =
      (set_current_frame None (stop self), Handler sock Done, finally_events).
Proof.
  intros self sock Hl.
  apply (handle_client_run 3); [exact Hl| |reflexivity].
  run1 idtac. run1 idtac. run1 ltac:(simpl; rewrite Hl). reflexivity.
Qed.

(** X11. A generator polling an unchanging store sends the same part
    at every poll -- the current frame encoded again, or the
    placeholder -- releases the lock after each and leaves the server
    object as it found it. *)
Theorem viewer_resends_unchanged_frame :
  forall k self,
    frame_lock self = false ->
    sys_run (repeat 0%nat (2 * k)) (System self [Viewer Poll]) =
      (System self [Viewer Poll],
       concat (repeat [Acquire; ReadFrame;
                       Yield (multipart_chunk (frame_bytes_of self));
                       Release; Sleep] k)).
Proof.
  intros k self Hl. induction k as [|k IH]; [reflexivity|].
  replace (2 * S k)%nat with (S (S (2 * k))) by lia.
  cbn [repeat sys_run]. unfold sys_step at 1. cbn [nth_error threads server].
  unfold generate_step at 1. rewrite Hl. cbn [set_thread].
  unfold sys_step at 1. cbn [nth_error threads server generate_step set_thread].
  replace (set_frame_lock false (set_frame_lock true self)) with self
    by (destruct self; simpl in Hl; subst; reflexivity).
  rewrite IH. reflexivity.
Qed.

End Locking.

(** ** Where stored frames come from *)

Section Provenance.

Context {cv : Cv2}.

Lemma handle_client_step_reads stream self h self' h' ev :
  handle_client_step self h = (self', h', ev) ->
  reads_from stream h -> reads_from stream h'.
Proof.
  intros Hs (consumed & Hstream & Hpc). destruct h as [sock p].
  unfold reads_from. simpl in *.
  destruct p as [| |fs fd|fs fd|frame| | |];
    unfold handle_client_step in Hs; cbn [at_pc client_socket] in Hs.
  - destruct (running self); injection Hs as <- <- <-;
      exists consumed; simpl; auto.
  - destruct (recv sock 4) as [chunk sock1|sock1] eqn:Hrecv.
    + destruct (recv_received _ _ _ _ Hrecv) as (Hp & _ & _).
      destruct chunk as [|b chunk].
      * injection Hs as <- <- <-. exists consumed. simpl.
        rewrite Hp in Hstream. auto.
      * destruct (struct_unpack_I (b :: chunk)) as [fs|] eqn:Hun;
          injection Hs as <- <- <-; exists (consumed ++ b :: chunk); simpl;
          (split; [rewrite Hstream, Hp, <- app_assoc; reflexivity|]); auto.
        exists consumed, (b :: chunk). rewrite app_nil_r. auto.
    + destruct (recv_raises _ _ _ Hrecv) as (Hp & -> & _).
      injection Hs as <- <- <-. exists consumed. simpl.
      rewrite Hp in Hstream. auto.
  - destruct Hpc as (pre & sd & Hc & Hun).
    destruct (blen fd <? fs).
    + destruct (recv sock (Z.min (fs - blen fd) 4096))
        as [chunk sock1|sock1] eqn:Hrecv.
      * destruct (recv_received _ _ _ _ Hrecv) as (Hp & _ & _).
        destruct chunk as [|b chunk]; injection Hs as <- <- <-.
        -- exists consumed. simpl. rewrite Hp in Hstream. eauto.
        -- exists (consumed ++ b :: chunk). simpl.
           split; [rewrite Hstream, Hp, <- app_assoc; reflexivity|].
           exists pre, sd. rewrite Hc, <- !app_assoc. auto.
      * destruct (recv_raises _ _ _ Hrecv) as (Hp & -> & _).
        injection Hs as <- <- <-. exists consumed. simpl.
        rewrite Hp in Hstream. auto.
    + injection Hs as <- <- <-. exists consumed. simpl. eauto.
  - destruct Hpc as (pre & sd & Hc & Hun).
    destruct (blen fd =? fs) eqn:Heq.
    + apply Z.eqb_eq in Heq. subst fs.
      destruct (imdecode fd) as [frame| |] eqn:Hdec;
        injection Hs as <- <- <-; exists consumed; simpl; eauto 7.
    + injection Hs as <- <- <-. exists consumed. simpl. auto.
  - destruct (frame_lock self); injection Hs as <- <- <-;
      exists consumed; simpl; auto.
  - injection Hs as <- <- <-. exists consumed. simpl. auto.
  - destruct (frame_lock self); injection Hs as <- <- <-;
      exists consumed; simpl; auto.
  - injection Hs as <- <- <-. exists consumed. simpl. auto.
Qed.

Lemma run_frames_from_stream stream n : forall self h frame,
  reads_from stream h ->
  In (WriteFrame (Some frame)) (snd (run n self h)) ->
  exists pre size_data frame_data post,
    stream = pre ++ size_data ++ frame_data ++ post /\
    struct_unpack_I size_data = Some (blen frame_data) /\
    imdecode frame_data = Decoded frame.
Proof.
  induction n as [|n IH]; intros self h frame Hinv Hin; simpl in Hin;
    [contradiction|].
  destruct (handle_client_step self h) as [[s1 h1] e1] eqn:Hs.
  pose proof (handle_client_step_reads stream _ _ _ _ _ Hs Hinv) as Hinv1.
  specialize (IH s1 h1 frame Hinv1).
  destruct (run n s1 h1) as [[s2 h2] e2]. simpl in *.
  apply in_app_or in Hin. destruct Hin as [Hin|Hin]; [|exact (IH Hin)].
  destruct Hinv as (consumed & Hstream & Hpc). destruct h as [sock p].
  simpl in *.
  break_step Hs; simpl in Hin;
    repeat (destruct Hin as [Hin|Hin]; try discriminate Hin);
    try contradiction.
  injection Hin as <-.
  destruct Hpc as (pre & sd & fd & Hc & Hun & Hdec).
  exists pre, sd, fd, (pending sock).
  subst. rewrite <- !app_assoc. auto.
Qed.

(** X12. Every frame a handler assigns to [current_frame] is what
    [imdecode] made of a complete framed message of its connection: in
    the bytes the connection delivers there is a length field, followed
    by exactly as many bytes as it announces, and the frame is their
    decoding.  Nothing else is ever stored. *)
Theorem stored_frames_come_from_the_stream :
  forall n self sock frame,
    In (WriteFrame (Some frame)) (snd (run n self (Handler sock LoopHead))) ->
    exists pre size_data frame_data post,
      pending sock = pre ++ size_data ++ frame_data ++ post /\
      struct_unpack_I size_data = Some (blen frame_data) /\
      imdecode frame_data = Decoded frame.
Proof.
  intros n self sock frame Hin.
  apply (run_frames_from_stream (pending sock) n self
           (Handler sock LoopHead) frame); [|exact Hin].
  exists []. simpl. auto.
Qed.

End Provenance.

(** ** When every producer has gone *)

Lemma all_ingest_done_set_thread ts : forall i t t0,
  nth_error ts i = Some t0 ->
  thread_done t0 = thread_done t ->
  all_ingest_done (set_thread i t ts) = all_ingest_done ts.
Proof.
  unfold all_ingest_done.
  induction ts as [|a ts IH]; intros [|i] t t0 H Hd; simpl in *;
    try discriminate.
  - injection H as ->. rewrite Hd. reflexivity.
  - rewrite (IH i t t0 H Hd). reflexivity.
Qed.

Lemma all_ingest_done_set_running ts : forall i t t0,
  nth_error ts i = Some t0 ->
  thread_done t = false ->
  all_ingest_done (set_thread i t ts) = false.
Proof.
  unfold all_ingest_done.
  induction ts as [|a ts IH]; intros [|i] t t0 H Hd; simpl in *;
    try discriminate.
  - rewrite Hd. reflexivity.
  - rewrite (IH i t t0 H Hd). apply andb_false_r.
Qed.

Section Departure.

Context {cv : Cv2}.

(** X13. Starting from an empty store, whenever every ingest handler
    has returned the store is empty, however many producers there were
    and however their handlers and the viewers were interleaved: each
    handler's clear comes after its own writes, so the last clear comes
    after every write.  [/status] then reports [connected: false] and
    [/video_feed] sends the placeholder. *)
Theorem no_producer_no_frame :
  forall sched sys,
    current_frame (server sys) = None ->
    all_ingest_done (threads (fst (sys_run sched sys))) = true ->
    current_frame (server (fst (sys_run sched sys))) = None /\
    connected (fst (status (server (fst (sys_run sched sys))))) = false /\
    frame_bytes_of (server (fst (sys_run sched sys))) =
      imencode_jpg placeholder None.
Proof.
  assert (Hstep : forall i sys,
             current_frame (server sys) = None \/
             all_ingest_done (threads sys) = false ->
             current_frame (server (fst (sys_step i sys))) = None \/
             all_ingest_done (threads (fst (sys_step i sys))) = false).
  { intros i sys Hinv. unfold sys_step.
    destruct (nth_error (threads sys) i) as [[h|g]|] eqn:Hth.
    - destruct (handle_client_step (server sys) h) as [[s1 h1] ev] eqn:E.
      simpl.
      destruct (thread_done (Ingest h1)) eqn:Hd1.
      + destruct (pc_done_dec h) as [Hd|Hnd].
        * unfold handle_client_step in E. rewrite Hd in E.
          injection E as <- <- <-.
          destruct Hinv as [Hc|Ha]; [left; exact Hc|right].
          rewrite (all_ingest_done_set_thread _ _ _ _ Hth eq_refl).
          exact Ha.
        * left. simpl in Hd1.
          assert (Hd1' : at_pc h1 = Done)
            by (destruct (at_pc h1); try discriminate; reflexivity).
          destruct (handle_client_step_done _ _ _ _ _ E Hnd Hd1')
            as (_ & _ & -> & _).
          reflexivity.
      + right. exact (all_ingest_done_set_running _ _ _ _ Hth Hd1).
    - destruct (generate_step (server sys) g) as [[s1 g1] ev] eqn:E.
      simpl. rewrite (generate_step_frame _ _ _ _ _ E).
      rewrite (all_ingest_done_set_thread _ _ (Viewer g1) _ Hth eq_refl).
      exact Hinv.
    - exact Hinv. }
  assert (Hrun : forall sched sys,
             current_frame (server sys) = None \/
             all_ingest_done (threads sys) = false ->
             current_frame (server (fst (sys_run sched sys))) = None \/
             all_ingest_done (threads (fst (sys_run sched sys))) = false).
  { induction sched as [|i sched IH]; intros sys Hinv; simpl; [exact Hinv|].
    pose proof (Hstep i sys Hinv) as H1.
    destruct (sys_step i sys) as [sys1 e1]. simpl in H1.
    specialize (IH sys1 H1).
    destruct (sys_run sched sys1) as [sys2 e2]. exact IH. }
  intros sched sys Hc Hall.
  destruct (Hrun sched sys (or_introl Hc)) as [H|H]; [|congruence].
  unfold status, frame_bytes_of. simpl. rewrite H. auto.
Qed.

End Departure.

(** ** Concrete runs *)

Import Stub.

(** C1, as the spec states it, fails.  Ten bytes that are no image, sent
    as one framed message: once the handler is back at the top of its
    loop the store is still empty, and the next [/video_feed] part does
    not carry those ten bytes. *)
Lemma payload_is_not_relayed_verbatim :
  let payload := [x00; x01; x02; x03; x04; x05; x06; x07; x08; x09] in
  let sock := Socket [[x00; x00; x00; x0a]; payload] PeerClosed in
  exists self' sock',
    run 5 server0 (Handler sock LoopHead) =
      (self', Handler sock' LoopHead, [Print FailedToDecode]) /\
    pending sock' = [] /\
    current_frame self' = None /\
    forall chunk,
      In (Yield chunk) (snd (generate_step self' Poll)) ->
      chunk <> multipart_chunk payload.
Proof.
  intros payload sock. exists server0, (Socket [] PeerClosed).
  split; [reflexivity|]. split; [reflexivity|]. split; [reflexivity|].
  intros chunk Hin Heq. subst chunk.
  simpl in Hin. destruct Hin as [H|[H|[H|[]]]]; discriminate H.
Qed.

(** C2, as the spec states it, fails: no number read off the server
    object grows with every write and every clear. *)
Lemma no_sequence_number :
  ~ exists seq : VideoServer -> Z,
      forall self v, seq self < seq (set_current_frame v self).
Proof.
  intros [seq H]. specialize (H (init "0.0.0.0" 8080 5000) None).
  change (set_current_frame None (init "0.0.0.0" 8080 5000))
    with (init "0.0.0.0" 8080 5000) in H.
  lia.
Qed.

(** C3, as the spec states it, fails: no maximum below the largest
    length the field can hold makes the handler leave its loop after the
    length field, and none bounds what it holds in [frame_data]. *)
Lemma no_maximum_length :
  (~ exists max_len,
       0 <= max_len < 4294967295 /\
       forall sock size_data sock' frame_size,
         recv sock 4 = Received size_data sock' ->
         struct_unpack_I size_data = Some frame_size ->
         max_len < frame_size ->
         at_pc (snd (fst (handle_client_step server0 (Handler sock RecvSize))))
           = Finally) /\
  (~ exists max_len,
       0 <= max_len < 4294967295 /\
       forall sock n,
         buffered (snd (fst (run n server0 (Handler sock LoopHead))))
           <= max_len).
Proof.
  split.
  - intros (max_len & Hmax & H).
    specialize (H (Socket [[xff; xff; xff; xff]] PeerClosed)
                  [xff; xff; xff; xff] (Socket [] PeerClosed) 4294967295
                  eq_refl eq_refl ltac:(lia)).
    discriminate H.
  - intros (max_len & Hmax & H).
    set (payload := repeat x00 (Z.to_nat (max_len + 1))).
    assert (Hlen : blen payload = max_len + 1).
    { unfold blen, payload. rewrite repeat_length. lia. }
    assert (Hrange : 0 <= blen payload < 4294967296) by lia.
    destruct (struct_pack_total _ Hrange) as [size_data Hpack].
    destruct (receive_message server0 size_data (blen payload) payload []
                [payload] [] PeerClosed eq_refl
                (struct_pack_length _ _ Hpack)
                (struct_unpack_pack _ _ Hpack) eq_refl)
      as (n & sock' & Hr & _).
    { simpl. rewrite !app_nil_r. reflexivity. }
    specialize (H (Socket ((size_data ++ []) :: [payload]) PeerClosed) n).
    rewrite Hr in H. unfold buffered in H. cbn [at_pc snd fst] in H. lia.
Qed.

(** A frame sent in three segments, length field first. *)
Lemma frame_reaches_viewers_witness :
  running server0 = true /\
  imdecode pixel_jpg = Decoded pixel /\
  exists n sock' self',
    run n server0
      (Handler (Socket [[x00; x00; x00; x07]; [xff; xd8];
                        [x01; x01; x10; x20; x30]] PeerClosed) LoopHead) =
      (self', Handler sock' LoopHead,
       [Acquire; WriteFrame (Some pixel); Release; Print (ReceivedFrame 1 1)]) /\
    self' = set_current_frame (Some pixel) server0 /\
    current_frame self' = Some pixel /\
    pending sock' = [] /\ ending sock' = PeerClosed /\
    connected (fst (status self')) = true /\
    generate_step self' Poll =
      (set_frame_lock true self', AtYield,
       [Acquire; ReadFrame;
        Yield (multipart_chunk (imencode_jpg pixel (Some 85)))]).
Proof.
  split; [reflexivity|]. split; [reflexivity|].
  apply (frame_reaches_viewers server0 [x00; x00; x00; x07] pixel_jpg []
           [[xff; xd8]; [x01; x01; x10; x20; x30]] [] PeerClosed pixel);
    reflexivity.
Defined.

(** Two bytes of a seven-byte frame, then the close. *)
Lemma truncated_frame_ends_connection_witness :
  blen [xff; xd8] < 7 /\
  exists h' msg,
    handle_client (set_current_frame (Some pixel) server0)
      (Socket [[x00; x00; x00; x07]; [xff; xd8]] PeerClosed) =
      (server0, h', Print msg :: finally_events) /\
    at_pc h' = Done /\
    (msg = IncompleteFrame \/ msg = ClientHandlingError).
Proof.
  split; [reflexivity|].
  destruct (truncated_frame_ends_connection
              (set_current_frame (Some pixel) server0)
              (Socket [[x00; x00; x00; x07]; [xff; xd8]] PeerClosed)
              [x00; x00; x00; x07] 7 [xff; xd8]
              eq_refl eq_refl eq_refl eq_refl eq_refl eq_refl)
    as (h' & msg & H1 & H2 & H3 & _).
  exists h', msg. auto.
Defined.

(** Two bytes that are no image, and the next message behind them. *)
Lemma decode_failure_is_not_fatal_witness :
  (forall frame, imdecode [x41; x42] <> Decoded frame) /\
  exists n sock' msg,
    run n (set_current_frame (Some pixel) server0)
      (Handler (Socket [[x00; x00; x00; x02; x41]; [x42; x00; x00]] PeerClosed)
               LoopHead) =
      (set_current_frame (Some pixel) server0, Handler sock' LoopHead,
       [Print msg]) /\
    (msg = FailedToDecode \/ msg = FrameDecodingError) /\
    pending sock' = [x00; x00] /\ ending sock' = PeerClosed /\
    handle_client_step (set_current_frame (Some pixel) server0)
      (Handler sock' LoopHead) =
      (set_current_frame (Some pixel) server0, Handler sock' RecvSize, []).
Proof.
  assert (Hbad : forall frame, imdecode [x41; x42] <> Decoded frame)
    by (intros frame H; discriminate H).
  split; [exact Hbad|].
  apply (decode_failure_is_not_fatal (set_current_frame (Some pixel) server0)
           [x00; x00; x00; x02] [x41; x42] [x41] [[x42; x00; x00]]
           [x00; x00] PeerClosed); [reflexivity|reflexivity|reflexivity|].
  exact Hbad.
Defined.

Lemma no_length_limit_witness :
  struct_pack_I (blen pixel_jpg) = Some [x00; x00; x00; x07] /\
  (exists n sock',
      run n server0
        (Handler (Socket [[x00; x00; x00; x07]; pixel_jpg] ConnReset)
                 LoopHead) =
        (server0, Handler sock' (Decode 7 pixel_jpg), []) /\
      buffered (Handler sock' (Decode 7 pixel_jpg)) = 7 /\
      pending sock' = [] /\ ending sock' = ConnReset) /\
  (exists chunk,
      firstn 4096 (repeat x41 (Z.to_nat 5000)) = [] ++ chunk /\
      0 < blen chunk <= 4096 /\
      blen chunk <= 5000 - blen []).
Proof.
  split; [reflexivity|]. split.
  - apply (proj1 no_length_limit server0 [x00; x00; x00; x07] pixel_jpg []
             [pixel_jpg] [] ConnReset); reflexivity.
  - apply (proj2 no_length_limit server0
             (Socket [repeat x41 (Z.to_nat 5000)] PeerClosed) 5000 []
             server0
             (Socket [skipn 4096 (repeat x41 (Z.to_nat 5000))] PeerClosed)
             (firstn 4096 (repeat x41 (Z.to_nat 5000))) []).
    vm_compute. reflexivity.
Defined.

(** A writing step, and a step that stores what is already held. *)
Lemma store_has_no_sequence_number_witness :
  set_current_frame (Some pixel) server0 =
    set_current_frame (Some pixel) server0 /\
  set_current_frame (Some pixel) server0 =
    set_current_frame
      (current_frame (set_current_frame (Some pixel) server0))
      (set_current_frame (Some pixel) server0).
Proof.
  pose proof (@store_has_no_sequence_number stub_cv2) as (_ & Hstep & Hsame).
  split.
  - exact (Hsame (set_current_frame (Some pixel) server0)
             (Handler (Socket [] PeerClosed) (Update pixel))
             (set_current_frame (Some pixel) server0)
             (Handler (Socket [] PeerClosed) LoopHead)
             [Acquire; WriteFrame (Some pixel); Release;
              Print (ReceivedFrame 1 1)]
             eq_refl eq_refl).
  - exact (Hstep (set_current_frame (Some pixel) server0)
             (Handler (Socket [] PeerClosed) (Update pixel))
             (set_current_frame (Some pixel) server0)
             (Handler (Socket [] PeerClosed) LoopHead)
             [Acquire; WriteFrame (Some pixel); Release;
              Print (ReceivedFrame 1 1)]
             eq_refl).
Defined.

Lemma placeholder_when_empty_witness :
  current_frame server0 = None /\ frame_lock server0 = false /\
  generate_step server0 Poll =
    (set_frame_lock true server0, AtYield,
     [Acquire; ReadFrame;
      Yield (list_byte_of_string "--frame" ++ [x0d; x0a] ++
             list_byte_of_string "Content-Type: image/jpeg" ++
             [x0d; x0a; x0d; x0a] ++
             imencode_jpg
               (putText (NdArray [480; 640; 3] (repeat x00 (Z.to_nat 921600)))
                        "No Video Stream" (150, 240) FONT_HERSHEY_SIMPLEX 1
                        (255, 255, 255) 2) None ++
             [x0d; x0a])]).
Proof.
  split; [reflexivity|]. split; [reflexivity|].
  apply (proj1 (proj2 placeholder_when_empty) server0); reflexivity.
Defined.

Lemma finally_clears_unconditionally_witness :
  frame_lock (set_current_frame (Some pixel) server0) = false /\
  (exists h' pre,
      handle_client (set_current_frame (Some pixel) server0)
        (Socket [] PeerClosed) =
        (set_current_frame None (set_current_frame (Some pixel) server0), h',
         pre ++ finally_events) /\
      at_pc h' = Done) /\
  (exists sys1,
      sys_step 1 two_producers = (sys1, [Acquire; WriteFrame None; Release]) /\
      current_frame (server sys1) = None /\
      forall j, j <> 1%nat ->
        nth_error (threads sys1) j = nth_error (threads two_producers) j).
Proof.
  split; [reflexivity|]. split.
  - apply (proj1 finally_clears_unconditionally). reflexivity.
  - apply (proj2 finally_clears_unconditionally two_producers 1%nat
             (Handler (Socket [] PeerClosed) Clear)); reflexivity.
Defined.

(** C7, as the spec states it, fails.  A producer sends a frame, a
    viewer polls and is suspended at its [yield], and the producer
    closes: the handler has seen the close, has printed the disconnect
    and closed its socket, and waits for the lock at the clear; the
    store still holds the frame and [/status] still answers
    [connected: true]. *)
Lemma closed_connection_still_shown :
  let sched := [0; 0; 0; 0; 0; 0; 1; 0; 0; 0; 0; 0]%nat in
  let sys' := fst (sys_run sched one_producer) in
  let tr := snd (sys_run sched one_producer) in
  In (WriteFrame (Some pixel)) tr /\
  In (Print ClientDisconnected) tr /\
  In SockClose tr /\
  nth_error (threads sys') 0 =
    Some (Ingest (Handler (Socket [] PeerClosed) Clear)) /\
  current_frame (server sys') = Some pixel /\
  connected (fst (status (server sys'))) = true.
Proof.
  vm_compute. repeat split; auto 20.
Qed.

(** The first producer is given its steps and ends; and the second
    producer ends, the first then reads on, and nobody writes. *)
Lemma disconnect_clears_state_witness :
  (exists h1 tr1,
      let sys1 := System (set_current_frame None (server two_producers))
                         (set_thread 0 (Ingest h1) (threads two_producers)) in
      sys_run
        (repeat 0%nat
           (fuel (Handler (Socket [[x00; x00; x00; x07]; pixel_jpg] PeerClosed)
                          LoopHead)))
        two_producers = (sys1, tr1) /\
      at_pc h1 = Done) /\
  (let sys1 := fst (sys_step 1 two_producers) in
   let sys2 := fst (sys_run [0; 0]%nat sys1) in
   no_frame_written (snd (sys_run [0; 0]%nat sys1)) = true /\
   current_frame (server sys2) = None /\
   connected (fst (status (server sys2))) = false /\
   frame_bytes_of (server sys2) = imencode_jpg placeholder None).
Proof.
  split.
  - destruct (proj1 disconnect_clears_state two_producers 0%nat
                (Handler (Socket [[x00; x00; x00; x07]; pixel_jpg] PeerClosed)
                         LoopHead)
                eq_refl ltac:(discriminate) eq_refl)
      as (h1 & tr1 & Hrun & Hd & _).
    exists h1, tr1. split; [exact Hrun|exact Hd].
  - intros sys1 sys2. split; [reflexivity|].
    apply (proj2 disconnect_clears_state two_producers 1%nat
             (Handler (Socket [] PeerClosed) Clear) sys1
             (snd (sys_step 1 two_producers))
             (Handler (Socket [] PeerClosed) Done)
             ltac:(reflexivity) ltac:(discriminate) ltac:(reflexivity)
             ltac:(reflexivity) ltac:(reflexivity)
             [0; 0]%nat sys2 (snd (sys_run [0; 0]%nat sys1)));
      reflexivity.
Defined.

(** ** Concrete runs of the further properties *)

Lemma length_field_round_trip_witness :
  struct_pack_I 258 = Some [x00; x00; x01; x02] /\
  length [x00; x00; x01; x02] = 4%nat /\
  struct_unpack_I [x00; x00; x01; x02] = Some 258.
Proof.
  split; [reflexivity|].
  apply (proj1 length_field_round_trip 258). reflexivity.
Defined.

Lemma frames_stored_in_order_witness :
  Forall (fun m => struct_pack_I (blen (snd m)) = Some (fst m)) two_messages /\
  exists n sock',
    run n server0 (Handler (Socket (framed two_messages) PeerClosed) LoopHead) =
      (set_current_frame (Some pixel) server0,
       Handler sock' LoopHead,
       [Acquire; WriteFrame (Some pixel); Release; Print (ReceivedFrame 1 1);
        Print FailedToDecode]) /\
    pending sock' = [] /\ ending sock' = PeerClosed.
Proof.
  assert (H : Forall (fun m => struct_pack_I (blen (snd m)) = Some (fst m))
                     two_messages) by (repeat constructor).
  split; [exact H|].
  exact (frames_stored_in_order two_messages server0 PeerClosed
           eq_refl eq_refl H).
Defined.

(** A frame that goes out whole, and one cut off by a failing socket
    two bytes into the JPEG. *)
Lemma send_frame_delivers_witness :
  send_frame pixel true (Link None) =
    (true, [[x00; x00; x00; x07]; pixel_jpg], Link None) /\
  (exists n sock_in,
      run n server0
        (Handler (Socket [[x00; x00; x00; x07]; pixel_jpg] ConnReset)
                 LoopHead) =
        (set_current_frame (Some pixel) server0, Handler sock_in LoopHead,
         [Acquire; WriteFrame (Some pixel); Release;
          Print (ReceivedFrame 1 1)]) /\
      pending sock_in = [] /\ ending sock_in = ConnReset) /\
  send_frame pixel true (Link (Some 6%nat)) =
    (false, [[x00; x00; x00; x07]; [xff; xd8]], Link (Some 0%nat)) /\
  (concat [[x00; x00; x00; x07]; [xff; xd8]] = [] \/
   exists size_data rest,
     struct_pack_I (blen pixel_jpg) = Some size_data /\
     rest <> [] /\
     concat [[x00; x00; x00; x07]; [xff; xd8]] ++ rest
       = size_data ++ pixel_jpg).
Proof.
  split; [reflexivity|]. split; [|split; [reflexivity|]].
  - exact (proj2 (proj1 (proj2 (send_frame_delivers pixel true (Link None)))
                    _ _ eq_refl)
             server0 ConnReset eq_refl eq_refl).
  - exact (proj2 (proj2 (send_frame_delivers pixel true (Link (Some 6%nat))))
             _ _ eq_refl).
Defined.

(** A reset after the length field and one byte of the payload. *)
Lemma reset_inside_message_witness :
  pending (Socket [[x00; x00; x00; x07; xff]] ConnReset) ++
    [xd8; x01; x01; x10; x20; x30] = [x00; x00; x00; x07] ++ pixel_jpg /\
  exists h',
    handle_client (set_current_frame (Some pixel) server0)
      (Socket [[x00; x00; x00; x07; xff]] ConnReset) =
      (server0, h', Print ClientHandlingError :: finally_events) /\
    at_pc h' = Done.
Proof.
  split; [reflexivity|].
  apply (reset_inside_message (set_current_frame (Some pixel) server0)
           (Socket [[x00; x00; x00; x07; xff]] ConnReset)
           [x00; x00; x00; x07] pixel_jpg [xd8; x01; x01; x10; x20; x30]);
    try reflexivity.
  discriminate.
Defined.

Lemma suspended_viewer_blocks_ingest_witness :
  frame_lock (server viewer_suspended) = true /\
  server (fst (sys_run [1; 2; 2; 1]%nat viewer_suspended)) =
    server viewer_suspended /\
  existsb is_assignment (snd (sys_run [1; 2; 2; 1]%nat viewer_suspended))
    = false.
Proof.
  split; [reflexivity|].
  apply (suspended_viewer_blocks_ingest [1; 2; 2; 1]%nat viewer_suspended);
    reflexivity.
Defined.

Lemma lock_discipline_witness :
  lock_consistent one_producer /\
  lock_ok false
    (snd (sys_run [0; 0; 0; 0; 0; 1; 0; 2; 1; 0; 2; 0]%nat one_producer))
    = true /\
  lock_consistent
    (fst (sys_run [0; 0; 0; 0; 0; 1; 0; 2; 1; 0; 2; 0]%nat one_producer)) /\
  (holders
     (threads
        (fst (sys_run [0; 0; 0; 0; 0; 1; 0; 2; 1; 0; 2; 0]%nat one_producer)))
   <= 1)%nat.
Proof.
  split; [reflexivity|].
  apply (lock_discipline [0; 0; 0; 0; 0; 1; 0; 2; 1; 0; 2; 0]%nat one_producer).
  reflexivity.
Defined.

Lemma stopped_server_reads_nothing_witness :
  frame_lock server0 = false /\
  handle_client (stop server0)
    (Socket [[x00; x00; x00; x07]; pixel_jpg] PeerClosed) =
    (set_current_frame None (stop server0),
     Handler (Socket [[x00; x00; x00; x07]; pixel_jpg] PeerClosed) Done,
     finally_events).
Proof.
  split; [reflexivity|].
  apply (stopped_server_reads_nothing server0). reflexivity.
Defined.

Lemma viewer_resends_unchanged_frame_witness :
  sys_run [0; 0; 0; 0]%nat
    (System (set_current_frame (Some pixel) server0) [Viewer Poll]) =
    (System (set_current_frame (Some pixel) server0) [Viewer Poll],
     [Acquire; ReadFrame; Yield (multipart_chunk pixel_jpg); Release; Sleep;
      Acquire; ReadFrame; Yield (multipart_chunk pixel_jpg); Release; Sleep]).
Proof.
  exact (viewer_resends_unchanged_frame 2
           (set_current_frame (Some pixel) server0) eq_refl).
Defined.

Lemma stored_frames_come_from_the_stream_witness :
  In (WriteFrame (Some pixel))
     (snd (run 6 server0
             (Handler (Socket [[x00; x00; x00; x07]; pixel_jpg] PeerClosed)
                      LoopHead))) /\
  exists pre size_data frame_data post,
    pending (Socket [[x00; x00; x00; x07]; pixel_jpg] PeerClosed) =
      pre ++ size_data ++ frame_data ++ post /\
    struct_unpack_I size_data = Some (blen frame_data) /\
    imdecode frame_data = Decoded pixel.
Proof.
  assert (H : In (WriteFrame (Some pixel))
                (snd (run 6 server0
                        (Handler (Socket [[x00; x00; x00; x07]; pixel_jpg]
                                         PeerClosed) LoopHead))))
    by (right; left; reflexivity).
  split; [exact H|].
  exact (stored_frames_come_from_the_stream 6 server0 _ pixel H).
Defined.

(** The producer sends its frame, a viewer polls while it is shown, and
    the producer closes. *)
Lemma no_producer_no_frame_witness :
  current_frame (server one_producer) = None /\
  all_ingest_done
    (threads (fst (sys_run [0; 0; 0; 0; 0; 0; 1; 1; 0; 0; 0; 0]%nat
                     one_producer))) = true /\
  current_frame
    (server (fst (sys_run [0; 0; 0; 0; 0; 0; 1; 1; 0; 0; 0; 0]%nat
                    one_producer))) = None.
Proof.
  split; [reflexivity|]. split; [reflexivity|].
  apply (no_producer_no_frame [0; 0; 0; 0; 0; 0; 1; 1; 0; 0; 0; 0]%nat
           one_producer); reflexivity.
Defined.
